(** * stock_sma256: the brute-force SMA crossover search of [main.cpp]

    A shallow embedding of the computational core of [main.cpp]:
    [calcSMA], [simulateWithCapitalRange], the grid sweep of
    [bruteForceAndAppend] and the comparator handed to [std::sort].

    Modelling conventions.
    - [double] is Rocq's primitive binary64 [float]; [+], [-], [*], [/],
      [<] and [std::isnan] are the IEEE operations of [PrimFloat], whose
      behaviour is given by [FloatAxioms] in terms of [SpecFloat].
    - [int] is [Z].  Vector sizes are taken to fit in an [int], so
      [(int)v.size()] is the length of the list; every [int] the code
      computes is then an index between [-1] and the size, a period, a
      number of shares obtained from a cast to [int], or a count of
      trades bounded by the size, so no wrap-around is written.
    - [vector<T>] is [list T].  [v[i]] is undefined behaviour outside
      [0 .. size-1]; reads and writes are therefore partial ([vget],
      [vset]) and every function that indexes a vector lives in the
      [option] monad, [None] standing for an access out of bounds.
    - [(int)x] on a [double] truncates toward zero.  When the truncated
      value does not fit in an [int] (or [x] is infinite or NaN) C++ leaves
      the result open; the development is parametric in the value
      [cast_oor x] an implementation yields there. *)

From Stdlib Require Import ZArith Floats Uint63 Lia Permutation Sorted.
From stdpp Require Import base tactics option list numbers sorting.

Local Open Scope Z_scope.

(** ** Vectors and loops *)

Section Vector.
Context {A : Type}.

(** [v[i]] as an rvalue. *)
Definition vget (v : list A) (i : Z) : option A :=
  if i <? 0 then None else v !! Z.to_nat i.

(** [v[i] = x]. *)
Definition vset (v : list A) (i : Z) (x : A) : option (list A) :=
  if (0 <=? i) && (i <? Z.of_nat (length v))
  then Some (<[Z.to_nat i := x]> v) else None.
End Vector.

Section Loop.
Context {State : Type}.
Variable body : Z -> State -> option State.

(** [k] iterations of [body], the counter starting at [i]. *)
Fixpoint iterate (k : nat) (i : Z) (s : State) : option State :=
  match k with
  | O => Some s
  | S k' => s' ← body i s; iterate k' (i + 1) s'
  end.

(** [for (int i = lo; i < hi; i++) body]. *)
Definition for_loop (lo hi : Z) (s : State) : option State :=
  iterate (Z.to_nat (hi - lo)) lo s.
End Loop.

(** ** Numeric conversions *)

(** [(double)n] for an [int] [n]: exact, an [int] has at most 31 bits. *)
Definition double_of_int (n : Z) : float :=
  if n <? 0 then PrimFloat.opp (of_uint63 (Uint63.of_Z (- n)))
  else of_uint63 (Uint63.of_Z n).

Definition INT_MIN : Z := - 2147483648.
Definition INT_MAX : Z := 2147483647.

(** The integer part of a finite [double], rounded toward zero. *)
Definition trunc_double (x : float) : option Z :=
  match Prim2SF x with
  | S754_zero _ => Some 0
  | S754_finite sg m e => Some (cond_Zopp sg (Z.shiftl (Zpos m) e))
  | S754_infinity _ | S754_nan => None
  end.

(** [(int)x]. *)
Definition int_of_double (cast_oor : float -> Z) (x : float) : Z :=
  match trunc_double x with
  | Some z => if (INT_MIN <=? z) && (z <=? INT_MAX) then z else cast_oor x
  | None => cast_oor x
  end.

(** What x86-64 yields outside the range: the "integer indefinite". *)
Definition cast_oor_x86 (_ : float) : Z := INT_MIN.

(** ** [calcSMA] *)

Definition INITIAL : float := 10000%float.

Definition calcSMA (p : list float) (n : Z) : option (list float) :=
  let N := Z.of_nat (length p) in
  let sma := replicate (length p) nan in
  if (n <? 1) || (N <? n) then Some sma else
  sum ← for_loop (fun i sum => x ← vget p i; Some (sum + x)%float) 0 n 0%float;
  sma ← vset sma (n - 1) (sum / double_of_int n)%float;
  r ← for_loop (fun i '(sum, sma) =>
         a ← vget p i;
         b ← vget p (i - n);
         let sum := (sum + (a - b))%float in
         sma ← vset sma i (sum / double_of_int n)%float;
         Some (sum, sma)) n N (sum, sma);
  Some r.2.

(** ** [simulateWithCapitalRange] *)

Record SimResult := { finalCapital : float; tradeCount : Z }.

(** The three locals the simulation updates. *)
Record state := { cash : float; shares : Z; trades : Z }.

(** A journal of the trades executed, kept next to the state.  It is not
    in the source: it names the executions of [trades++] so that buys
    and sells can be counted. *)
Inductive trade := Buy | Sell.

#[global] Instance trade_eq_dec : EqDecision trade.
Proof. solve_decision. Defined.

Definition init_state : state := {| cash := INITIAL; shares := 0; trades := 0 |}.

Section Simulator.
Variable cast_oor : float -> Z.
Variables prices smaS smaL : list float.

(** The body of the loop over [i]. *)
Definition step (startIdx i : Z) (sj : state * list trade)
  : option (state * list trade) :=
  let '(st, j) := sj in
  sp ← vget smaS (i - 1);
  lp ← vget smaL (i - 1);
  sn ← vget smaS i;
  ln ← vget smaL i;
  let dPrev := (sp - lp)%float in
  let dNow := (sn - ln)%float in
  if is_nan dPrev || is_nan dNow then Some sj else
  let isFirstDay := i =? startIdx in
  if negb isFirstDay && (shares st =? 0) && (dPrev <? 0)%float && (0 <? dNow)%float
  then
    pi ← vget prices i;
    let buyShares := int_of_double cast_oor (cash st / pi)%float in
    if 0 <? buyShares then
      Some ({| cash := (cash st - double_of_int buyShares * pi)%float;
               shares := shares st + buyShares;
               trades := trades st + 1 |}, j ++ [Buy])
    else Some sj
  else if (0 <? shares st) && (0 <? dPrev)%float && (dNow <? 0)%float
  then
    pi ← vget prices i;
    Some ({| cash := (cash st + double_of_int (shares st) * pi)%float;
             shares := 0;
             trades := trades st + 1 |}, j ++ [Sell])
  else Some sj.

(** [for (int i = startIdx; i <= endIdx; ++i)], from the initial state. *)
Definition trading_loop (startIdx endIdx : Z) : option (state * list trade) :=
  for_loop (step startIdx) startIdx (endIdx + 1) (init_state, []).

(** The forced sale after the loop. *)
Definition liquidate (endIdx : Z) (sj : state * list trade)
  : option (state * list trade) :=
  let '(st, j) := sj in
  if 0 <? shares st then
    pe ← vget prices endIdx;
    Some ({| cash := (cash st + double_of_int (shares st) * pe)%float;
             shares := 0;
             trades := trades st + 1 |}, j ++ [Sell])
  else Some sj.

Definition clamp_start (startIdx : Z) : Z :=
  if startIdx <? 0 then 0 else startIdx.

Definition clamp_end (endIdx : Z) : Z :=
  let N := Z.of_nat (length prices) in
  if N <=? endIdx then N - 1 else endIdx.

(** The simulation with its journal. *)
Definition simulate_journal (startIdx endIdx : Z)
  : option (SimResult * list trade) :=
  let N := Z.of_nat (length prices) in
  if N =? 0 then Some ({| finalCapital := INITIAL; tradeCount := 0 |}, []) else
  let startIdx := clamp_start startIdx in
  let endIdx := clamp_end endIdx in
  if endIdx <=? startIdx
  then Some ({| finalCapital := INITIAL; tradeCount := 0 |}, []) else
  let startIdx := if startIdx <? 1 then 1 else startIdx in
  sj ← trading_loop startIdx endIdx;
  '(st, j) ← liquidate endIdx sj;
  Some ({| finalCapital := cash st; tradeCount := trades st |}, j).

Definition simulateWithCapitalRange (startIdx endIdx : Z) : option SimResult :=
  fst <$> simulate_journal startIdx endIdx.
End Simulator.

(** ** The grid sweep of [bruteForceAndAppend] *)

Module BruteResult.
Record t := { s : Z; l : Z; finalCapital : float; trades : Z }.
End BruteResult.

Definition MAXN : Z := 256.

(** The locals of the sweep: the collected results and the best pair. *)
Record sweep := {
  results : list BruteResult.t;
  bestCapital : float;
  bestS : Z;
  bestL : Z
}.

Definition init_sweep : sweep :=
  {| results := []; bestCapital := (-1e18)%float; bestS := -1; bestL := -1 |}.

Section Grid.
Variable cast_oor : float -> Z.
Variable maxn : Z.
Variable prices : list float.

(** [allSMA]: [maxn + 1] vectors, entry [n] filled for [1 <= n <= maxn]. *)
Definition precompute_sma : option (list (list float)) :=
  for_loop (fun n allSMA => sma ← calcSMA prices n; vset allSMA n sma)
           1 (maxn + 1) (replicate (Z.to_nat (maxn + 1)) []).

(** The body of the inner loop. *)
Definition grid_cell (allSMA : list (list float)) (startIdx endIdx s l : Z)
           (g : sweep) : option sweep :=
  smaS ← vget allSMA s;
  smaL ← vget allSMA l;
  sr ← simulateWithCapitalRange cast_oor prices smaS smaL startIdx endIdx;
  let results :=
    results g ++ [{| BruteResult.s := s; BruteResult.l := l;
                     BruteResult.finalCapital := finalCapital sr;
                     BruteResult.trades := tradeCount sr |}] in
  if (bestCapital g <? finalCapital sr)%float then
    Some {| results := results; bestCapital := finalCapital sr;
            bestS := s; bestL := l |}
  else
    Some {| results := results; bestCapital := bestCapital g;
            bestS := bestS g; bestL := bestL g |}.

Definition grid_search (startIdx endIdx : Z) : option sweep :=
  allSMA ← precompute_sma;
  for_loop (fun s g =>
              for_loop (fun l g => grid_cell allSMA startIdx endIdx s l g)
                       1 (maxn + 1) g)
           1 (maxn + 1) init_sweep.
End Grid.

(** [bruteForceAndAppend] up to the call of [std::sort], with
    [MAXN = 256]; the console and file output are left out. *)
Definition bruteForceAndAppend (cast_oor : float -> Z) (prices : list float)
           (startIdx endIdx : Z) : option sweep :=
  grid_search cast_oor MAXN prices startIdx endIdx.

(** ** The comparator of the ranking *)

(** The lambda passed to [std::sort]: [true] when [a] goes before [b]. *)
Definition rank_before (a b : BruteResult.t) : bool :=
  if negb (BruteResult.finalCapital a =? BruteResult.finalCapital b)%float
  then (BruteResult.finalCapital b <? BruteResult.finalCapital a)%float
  else
    let da := Z.abs (BruteResult.s a - BruteResult.l a) in
    let db := Z.abs (BruteResult.s b - BruteResult.l b) in
    if negb (da =? db) then db <? da
    else if negb (BruteResult.s a =? BruteResult.s b)
         then BruteResult.s a <? BruteResult.s b
         else BruteResult.l a <? BruteResult.l b.

(** The pair of periods that identifies a cell of the grid. *)
Definition periods (r : BruteResult.t) : Z * Z :=
  (BruteResult.s r, BruteResult.l r).

(** What [std::sort] promises of its output: the elements of the input,
    none of them ranked before an element that precedes it. *)
Definition ordered_by {A} (before : A -> A -> bool) (v : list A) : Prop :=
  forall (i j : nat) (x y : A),
    (i < j)%nat -> v !! i = Some x -> v !! j = Some y -> before y x = false.

Definition sorts_to {A} (before : A -> A -> bool) (input output : list A) : Prop :=
  input ≡ₚ output /\ ordered_by before output.

(** ** The windowed mean as the specification words it *)

#[global] Instance float_inhabited : Inhabited float := populate nan.

(** The running sum after index [n - 1 + k]: the first [n] prices added
    up from zero, then one update [+ (p[i] - p[i-n])] per later index. *)
Fixpoint running_sum (p : list float) (n : nat) (k : nat) : float :=
  match k with
  | O => fold_left PrimFloat.add (take n p) 0%float
  | S k' => (running_sum p n k'
             + (p !!! (n + k')%nat - p !!! k'))%float
  end.

(** The entry at index [i] of the average of window [n >= 1]. *)
Definition sma_spec (p : list float) (n : nat) (i : nat) : float :=
  if (i <? n - 1)%nat then nan
  else (running_sum p n (i - (n - 1)) / double_of_int (Z.of_nat n))%float.

(** ** Notions used to state the properties *)

(** Equal up to the sign of a zero. *)
Definition same_number (x y : spec_float) : Prop :=
  x = y \/ exists s s', x = S754_zero s /\ y = S754_zero s'.

(** Indistinguishable to the crossover test: one is NaN (the day is
    skipped) or both are the same number. *)
Definition alike (x y : float) : Prop :=
  is_nan x = true \/ is_nan y = true \/ same_number (Prim2SF x) (Prim2SF y).

(** The outcome of a simulation that does nothing. *)
Definition no_trade : SimResult * list trade :=
  ({| finalCapital := INITIAL; tradeCount := 0 |}, []).

(** The journal of [k] round trips. *)
Definition round_trips (k : nat) : list trade := concat (replicate k [Buy; Sell]).

(** Flat with an even count, or holding with an odd one. *)
Definition balanced (sj : state * list trade) : Prop :=
  exists k : nat,
    (shares sj.1 = 0 /\ trades sj.1 = 2 * Z.of_nat k /\ sj.2 = round_trips k) \/
    (0 < shares sj.1 /\ trades sj.1 = 2 * Z.of_nat k + 1 /\
     sj.2 = round_trips k ++ [Buy]).

(** How many times a trade occurs in a journal. *)
Definition count_trades (t : trade) (j : list trade) : nat :=
  length (filter (fun x => x = t) j).

(** The cells of the grid in the order of the two nested loops. *)
Definition grid_cells (maxn : Z) : list (Z * Z) :=
  s ← seqZ 1 maxn; (fun l => (s, l)) <$> seqZ 1 maxn.

(** A result is the outcome of the simulation for its pair of periods. *)
Definition cell_result (cast_oor : float -> Z) (prices : list float)
           (startIdx endIdx : Z) (r : BruteResult.t) : Prop :=
  exists (smaS smaL : list float) (sr : SimResult),
    calcSMA prices (BruteResult.s r) = Some smaS /\
    calcSMA prices (BruteResult.l r) = Some smaL /\
    simulateWithCapitalRange cast_oor prices smaS smaL startIdx endIdx = Some sr /\
    BruteResult.finalCapital r = finalCapital sr /\
    BruteResult.trades r = tradeCount sr.

(** The place of a number in the order of [<]: its class (infinite,
    finite or zero, with its sign), then exponent and mantissa. *)
Definition sf_key (x : spec_float) : Z * Z * Z :=
  match x with
  | S754_zero _ | S754_nan => (0, 0, 0)
  | S754_infinity false => (2, 0, 0)
  | S754_infinity true => (-2, 0, 0)
  | S754_finite false m e => (1, e, Zpos m)
  | S754_finite true m e => (-1, - e, Zneg m)
  end.

Definition key_lt (k1 k2 : Z * Z * Z) : Prop :=
  let '(c1, e1, m1) := k1 in
  let '(c2, e2, m2) := k2 in
  c1 < c2 \/ (c1 = c2 /\ (e1 < e2 \/ (e1 = e2 /\ m1 < m2))).

(** The final capital of a result is a number. *)
Definition capital_defined (r : BruteResult.t) : Prop :=
  is_nan (BruteResult.finalCapital r) = false.

(** The three integer keys that break a tie on the capital. *)
Definition tie_before (a b : BruteResult.t) : Prop :=
  let da := Z.abs (BruteResult.s a - BruteResult.l a) in
  let db := Z.abs (BruteResult.s b - BruteResult.l b) in
  db < da \/
  (da = db /\
   (BruteResult.s a < BruteResult.s b \/
    (BruteResult.s a = BruteResult.s b /\ BruteResult.l a < BruteResult.l b))).

(** Entry [n] of [allSMA] holds the average of window [n]. *)
Definition filled (prices : list float) (allSMA : list (list float)) (n : Z) : Prop :=
  exists sma, vget allSMA n = Some sma /\ calcSMA prices n = Some sma /\
              length sma = length prices.

(** ** Notions used to state the further properties *)

(** What the sweep keeps of its best pair: the best capital is a number
    no result exceeds, and either nothing has beaten the initial
    [-1e18] or the pair is that of the first result with this capital. *)
Definition best_tracked (g : sweep) : Prop :=
  is_nan (bestCapital g) = false /\
  (forall r, r ∈ results g ->
             (bestCapital g <? BruteResult.finalCapital r)%float = false) /\
  ((bestS g = -1 /\ bestL g = -1 /\ bestCapital g = (-1e18)%float) \/
   exists l1 r l2,
     results g = l1 ++ r :: l2 /\
     periods r = (bestS g, bestL g) /\
     BruteResult.finalCapital r = bestCapital g /\
     forall r', r' ∈ l1 ->
       is_nan (BruteResult.finalCapital r') = true \/
       (BruteResult.finalCapital r' <? bestCapital g)%float = true).

(** ** Strings: [trim], [splitByComma]

    [std::string] is [list ascii].  Positions and sizes ([size_t]) are
    [nat], taken to fit; [string::npos] is [None]. *)

From Stdlib Require Import Ascii.
From stdpp Require Import strings.

Local Open Scope Z_scope.

(** The set [" \t\r\n"] both lambdas and the loader test against. *)
Definition whitespace : list ascii := [" "; "009"; "013"; "010"]%char.

(** [s.find_first_not_of(set)]. *)
Fixpoint find_first_not_of (set s : list ascii) : option nat :=
  match s with
  | [] => None
  | c :: s' =>
    if bool_decide (c ∈ set) then S <$> find_first_not_of set s' else Some O
  end.

(** [s.find_last_not_of(set)]. *)
Fixpoint find_last_not_of (set s : list ascii) : option nat :=
  match s with
  | [] => None
  | c :: s' =>
    match find_last_not_of set s' with
    | Some j => Some (S j)
    | None => if bool_decide (c ∈ set) then None else Some O
    end
  end.

(** [s.substr(pos, len)]: throws when [pos] is beyond the size. *)
Definition substr (s : list ascii) (pos len : nat) : option (list ascii) :=
  if (length s <? pos)%nat then None else Some (take len (drop pos s)).

(** The lambda [trim].  [end - start + 1] is computed on [size_t]: with
    [end] a position it is the difference in [Z] ([trim_positions] shows
    [start <= end]); with [end = npos = 2^64 - 1] it wraps. *)
Definition trim (s : list ascii) : option (list ascii) :=
  match find_first_not_of whitespace s with
  | None => Some []
  | Some start =>
    match find_last_not_of whitespace s with
    | Some end_ => substr s start (Z.to_nat (Z.of_nat end_ - Z.of_nat start + 1))
    | None =>
      substr s start (Z.to_nat ((2 ^ 64 - 1 - Z.of_nat start + 1) mod 2 ^ 64))
    end
  end.

(** What [std::getline(is, token, delim)] extracts from the characters
    left in a stream: up to the delimiter, which is consumed, or to the
    end. *)
Fixpoint read_until (delim : ascii) (ss : list ascii) : list ascii * list ascii :=
  match ss with
  | [] => ([], [])
  | c :: ss' =>
    if bool_decide (c = delim) then ([], ss')
    else let '(token, rest) := read_until delim ss' in (c :: token, rest)
  end.

(** [std::getline]: fails when nothing is left to extract. *)
Definition getline (delim : ascii) (ss : list ascii)
  : option (list ascii * list ascii) :=
  match ss with
  | [] => None
  | _ :: _ => Some (read_until delim ss)
  end.

(** [while (getline(ss, token, ',')) tokens.push_back(trim(token))], at
    most [fuel] times; [None] also when the fuel runs out. *)
Fixpoint split_loop (fuel : nat) (ss : list ascii) (tokens : list (list ascii))
  : option (list (list ascii)) :=
  match fuel with
  | O => None
  | S fuel' =>
    match getline ","%char ss with
    | None => Some tokens
    | Some (token, ss') =>
      t ← trim token; split_loop fuel' ss' (tokens ++ [t])
    end
  end.

(** The lambda [splitByComma]. *)
Definition splitByComma (line : list ascii) : option (list (list ascii)) :=
  split_loop (S (length line)) line [].

(** ** [loadFile] on the content of an opened file *)

Module DayData.
Record t := { date : list ascii; prices : list float }.
End DayData.

(** The two global tables. *)
Record globals := {
  g_symbols : list (list ascii);
  g_data : list DayData.t
}.

Definition cleared : globals := {| g_symbols := []; g_data := [] |}.

Section Loader.
(** [std::stod], [None] when it throws. *)
Variable stod : list ascii -> option float.

(** [for (size_t i = 1; i < tokens.size(); ++i)] with its [try]: [k]
    fields from index [i] on; [false] at the first field that does not
    convert. *)
Fixpoint convert_fields (k : nat) (i : Z) (tokens : list (list ascii))
         (prices : list float) : option (bool * list float) :=
  match k with
  | O => Some (true, prices)
  | S k' =>
    token ← vget tokens i;
    match stod token with
    | Some v => convert_fields k' (i + 1) tokens (prices ++ [v])
    | None => Some (false, prices)
    end
  end.

(** The body of the loop over the lines after the header. *)
Definition load_row (width : nat) (line : list ascii) (data : list DayData.t)
  : option (list DayData.t) :=
  match find_first_not_of whitespace line with
  | None => Some data
  | Some _ =>
    tokens ← splitByComma line;
    if negb (length tokens =? width)%nat then Some data else
    date ← vget tokens 0;
    '(ok, prices) ← convert_fields (length tokens - 1) 1 tokens [];
    if negb ok then Some data
    else Some (data ++ [{| DayData.date := date; DayData.prices := prices |}])
  end.

(** [while (getline(fin, line))], at most [fuel] times. *)
Fixpoint load_rows (fuel : nat) (fin : list ascii) (width : nat)
         (data : list DayData.t) : option (list DayData.t) :=
  match fuel with
  | O => None
  | S fuel' =>
    match getline "010"%char fin with
    | None => Some data
    | Some (line, fin') =>
      data' ← load_row width line data; load_rows fuel' fin' width data'
    end
  end.

(** [loadFile] once the file is open: the value returned and the tables. *)
Definition loadFile (content : list ascii) : option (bool * globals) :=
  match getline "010"%char content with
  | None => Some (false, cleared)
  | Some (line, fin) =>
    headerTokens ← splitByComma line;
    if (length headerTokens <? 2)%nat then Some (false, cleared) else
    symbols ← for_loop (fun i symbols =>
                          t ← vget headerTokens i; Some (symbols ++ [t]))
                       1 (Z.of_nat (length headerTokens)) [];
    data ← load_rows (S (length fin)) fin (length headerTokens) [];
    Some (true, {| g_symbols := symbols; g_data := data |})
  end.
End Loader.

(** ** [findSymbolIndex] *)

Fixpoint find_symbol_from (symbols : list (list ascii)) (symbol : list ascii)
         (k : nat) (i : Z) : option Z :=
  match k with
  | O => Some (-1)
  | S k' =>
    x ← vget symbols i;
    if bool_decide (x = symbol) then Some i
    else find_symbol_from symbols symbol k' (i + 1)
  end.

Definition findSymbolIndex (symbols : list (list ascii)) (symbol : list ascii)
  : option Z :=
  find_symbol_from symbols symbol (length symbols) 0.

(** ** [runForSymbol] *)

(** [s.find(pat) != npos]. *)
Fixpoint str_contains (pat s : list ascii) : bool :=
  if bool_decide (pat `prefix_of` s) then true
  else match s with
       | [] => false
       | _ :: s' => str_contains pat s'
       end.

Definition year_tag : list ascii := String.list_ascii_of_string "/2024".

(** The loop over [g_data] that fills [prices] and [dates]. *)
Fixpoint collect_series (symIdx : Z) (data : list DayData.t)
         (prices : list float) (dates : list (list ascii))
  : option (list float * list (list ascii)) :=
  match data with
  | [] => Some (prices, dates)
  | d :: data' =>
    p ← vget (DayData.prices d) symIdx;
    collect_series symIdx data' (prices ++ [p]) (dates ++ [DayData.date d])
  end.

(** The loop that finds [start2024] and [end2024]. *)
Definition find_2024 (dates : list (list ascii)) : option (Z * Z) :=
  for_loop (fun i '(start2024, end2024) =>
              d ← vget dates i;
              if str_contains year_tag d
              then Some (if start2024 =? -1 then i else start2024, i)
              else Some (start2024, end2024))
           0 (Z.of_nat (length dates)) (-1, -1).

(** How a run for one symbol ends. *)
Inductive run_outcome :=
| SymbolNotFound
| NoData
| No2024
| Swept (prices : list float) (start2024 end2024 : Z) (g : sweep).

Definition runForSymbol (cast_oor : float -> Z) (G : globals)
           (symbol : list ascii) : option run_outcome :=
  symIdx ← findSymbolIndex (g_symbols G) symbol;
  if symIdx =? -1 then Some SymbolNotFound else
  '(prices, dates) ← collect_series symIdx (g_data G) [] [];
  match prices with
  | [] => Some NoData
  | _ :: _ =>
    '(start2024, end2024) ← find_2024 dates;
    if start2024 =? -1 then Some No2024 else
    g ← bruteForceAndAppend cast_oor prices start2024 end2024;
    Some (Swept prices start2024 end2024 g)
  end.

(** ** Counting the fields of a line *)

Definition count_commas (s : list ascii) : nat :=
  length (filter (fun c => c = ","%char) s).

(** 1 when the line has a last field that is not empty. *)
Definition open_field (s : list ascii) : nat :=
  match last s with
  | Some c => if bool_decide (c = ","%char) then 0%nat else 1%nat
  | None => 0%nat
  end.

(** A field as [splitByComma] returns it: no comma, no whitespace at
    either end. *)
Definition clean_field (t : list ascii) : Prop :=
  (","%char ∉ t) /\
  (forall c, head t = Some c -> c ∉ whitespace) /\
  (forall c, last t = Some c -> c ∉ whitespace).

(** The first line of a file, as [getline] reads it. *)
Definition first_line (content : list ascii) : list ascii :=
  (read_until "010"%char content).1.

(** Every day carries one price per symbol. *)
Definition rectangular (G : globals) : Prop :=
  forall d, d ∈ g_data G -> length (DayData.prices d) = length (g_symbols G).

(** How a run for [symbol] over the tables [G] ends, and on what: which
    of the four ways, and for a sweep the column and the range handed
    over. *)
Definition run_post (cast_oor : float -> Z) (G : globals) (symbol : list ascii)
           (outcome : run_outcome) : Prop :=
  let tagged (d : DayData.t) := str_contains year_tag (DayData.date d) in
  (outcome = SymbolNotFound <-> symbol ∉ g_symbols G) /\
  (outcome = NoData <-> symbol ∈ g_symbols G /\ g_data G = []) /\
  (outcome = No2024 <->
   symbol ∈ g_symbols G /\ g_data G <> [] /\
   forall d, d ∈ g_data G -> tagged d = false) /\
  ((exists prices a b g, outcome = Swept prices a b g) <->
   symbol ∈ g_symbols G /\ exists d, d ∈ g_data G /\ tagged d = true) /\
  (forall prices a b g,
     outcome = Swept prices a b g ->
     (exists symIdx,
        findSymbolIndex (g_symbols G) symbol = Some symIdx /\
        g_symbols G !! Z.to_nat symIdx = Some symbol /\
        Forall2 (fun d p => vget (DayData.prices d) symIdx = Some p)
                (g_data G) prices) /\
     length prices = length (g_data G) /\
     find_2024 (DayData.date <$> g_data G) = Some (a, b) /\
     0 <= a <= b /\ b < Z.of_nat (length prices) /\
     (exists d, g_data G !! Z.to_nat a = Some d /\ tagged d = true) /\
     (exists d, g_data G !! Z.to_nat b = Some d /\ tagged d = true) /\
     (forall (j : nat) d,
        Z.of_nat j < a \/ b < Z.of_nat j ->
        g_data G !! j = Some d -> tagged d = false) /\
     bruteForceAndAppend cast_oor prices a b = Some g /\
     Z.of_nat (length (results g)) = 65536).
(** * Properties *)

(** ** Worked examples *)

Example calcSMA_spike :
  calcSMA [10; 10; 10; 10; 20; 10; 10; 10; 10]%float 2
  = Some [nan; 10; 10; 10; 15; 15; 10; 10; 10]%float.
Proof. vm_compute. reflexivity. Qed.

Example calcSMA_spike4 :
  calcSMA [10; 10; 10; 10; 20; 10; 10; 10; 10]%float 4
  = Some [nan; nan; nan; 10; 12.5; 12.5; 12.5; 12.5; 10]%float.
Proof. vm_compute. reflexivity. Qed.

(** The spike scenario: before the spike both averages are equal, so
    the difference is never negative on the eve of turning positive. *)
Example simulate_spike :
  let p := [10; 10; 10; 10; 20; 10; 10; 10; 10]%float in
  (smaS ← calcSMA p 2; smaL ← calcSMA p 4;
   simulate_journal cast_oor_x86 p smaS smaL 0 8)
  = Some ({| finalCapital := 10000; tradeCount := 0 |}, []).
Proof. vm_compute. reflexivity. Qed.

(** A zigzag: buy at 12, sell at 6, buy at 7, forced sale at 7. *)
Example simulate_zigzag :
  let p := [10; 8; 12; 6; 7]%float in
  (smaS ← calcSMA p 1; smaL ← calcSMA p 2;
   simulate_journal cast_oor_x86 p smaS smaL 0 4)
  = Some ({| finalCapital := 5002; tradeCount := 4 |}, [Buy; Sell; Buy; Sell]).
Proof. vm_compute. reflexivity. Qed.

(** ** Vectors and loops *)

Lemma vget_Some {A} (v : list A) (i : Z) (x : A) :
  vget v i = Some x <-> 0 <= i /\ v !! Z.to_nat i = Some x.
Proof.
  unfold vget. destruct (Z.ltb_spec i 0).
  - split; [discriminate | lia].
  - split; [intros H'; split; [lia | exact H'] | intros [_ H']; exact H'].
Qed.

Lemma vget_in_range {A} (v : list A) (i : Z) :
  0 <= i < Z.of_nat (length v) -> exists x, vget v i = Some x.
Proof.
  intros Hi. destruct (lookup_lt_is_Some_2 v (Z.to_nat i)) as [x Hx]; [lia|].
  exists x. apply vget_Some. split; [lia | exact Hx].
Qed.

Lemma vget_nat {A} (v : list A) (i : nat) : vget v (Z.of_nat i) = v !! i.
Proof.
  unfold vget. destruct (Z.ltb_spec (Z.of_nat i) 0); [lia|].
  now rewrite Nat2Z.id.
Qed.

Lemma vset_in_range {A} (v : list A) (i : Z) (x : A) :
  0 <= i < Z.of_nat (length v) -> vset v i x = Some (<[Z.to_nat i := x]> v).
Proof.
  intros Hi. unfold vset.
  destruct (Z.leb_spec 0 i); [|lia].
  destruct (Z.ltb_spec i (Z.of_nat (length v))); [reflexivity | lia].
Qed.

Section LoopFacts.
Context {State : Type}.
Variable body : Z -> State -> option State.

Lemma for_loop_empty (lo hi : Z) (s : State) :
  hi <= lo -> for_loop body lo hi s = Some s.
Proof.
  intros H. unfold for_loop.
  replace (Z.to_nat (hi - lo)) with O by lia. reflexivity.
Qed.

Lemma for_loop_first (lo hi : Z) (s : State) :
  lo < hi -> for_loop body lo hi s = s' ← body lo s; for_loop body (lo + 1) hi s'.
Proof.
  intros H. unfold for_loop.
  replace (Z.to_nat (hi - lo)) with (S (Z.to_nat (hi - (lo + 1)))) by lia.
  reflexivity.
Qed.

(** Total correctness: an invariant every iteration re-establishes,
    each iteration returning. *)
Lemma iterate_total (I : Z -> State -> Prop) (k : nat) :
  forall (i : Z) (s : State),
    I i s ->
    (forall j t, i <= j < i + Z.of_nat k -> I j t ->
                 exists t', body j t = Some t' /\ I (j + 1) t') ->
    exists s', iterate body k i s = Some s' /\ I (i + Z.of_nat k) s'.
Proof.
  induction k as [|k IH]; intros i s Hi Hstep; simpl.
  - exists s. split; [reflexivity|]. now replace (i + Z.of_nat 0) with i by lia.
  - destruct (Hstep i s) as (t & Ht & HI); [lia | assumption |].
    rewrite Ht. simpl.
    destruct (IH (i + 1) t HI) as (s' & Hs' & HI').
    + intros j u Hj. apply Hstep. lia.
    + exists s'. split; [assumption|].
      now replace (i + Z.of_nat (S k)) with (i + 1 + Z.of_nat k) by lia.
Qed.

Lemma for_loop_total (I : Z -> State -> Prop) (lo hi : Z) (s : State) :
  lo <= hi -> I lo s ->
  (forall j t, lo <= j < hi -> I j t ->
               exists t', body j t = Some t' /\ I (j + 1) t') ->
  exists s', for_loop body lo hi s = Some s' /\ I hi s'.
Proof.
  intros Hle H0 Hstep. unfold for_loop.
  destruct (iterate_total I (Z.to_nat (hi - lo)) lo s H0) as (s' & Hs' & HI).
  - intros j t Hj. apply Hstep. lia.
  - exists s'. split; [assumption|].
    now replace (lo + Z.of_nat (Z.to_nat (hi - lo))) with hi in HI by lia.
Qed.

(** Partial correctness: whatever a returning loop returns satisfies
    an invariant the returning iterations preserve. *)
Lemma iterate_partial (I : State -> Prop) (k : nat) :
  forall (i : Z) (s s' : State),
    I s ->
    (forall j t t', i <= j < i + Z.of_nat k -> I t -> body j t = Some t' -> I t') ->
    iterate body k i s = Some s' -> I s'.
Proof.
  induction k as [|k IH]; intros i s s' Hs Hstep; simpl.
  - intros [= <-]. assumption.
  - destruct (body i s) as [t|] eqn:Ht; simpl; [|discriminate].
    apply IH.
    + apply (Hstep i s t); [lia | assumption | assumption].
    + intros j u u' Hj. apply Hstep. lia.
Qed.

Lemma for_loop_partial (I : State -> Prop) (lo hi : Z) (s s' : State) :
  I s ->
  (forall j t t', lo <= j < hi -> I t -> body j t = Some t' -> I t') ->
  for_loop body lo hi s = Some s' -> I s'.
Proof.
  intros Hs Hstep. unfold for_loop. apply iterate_partial; [assumption|].
  intros j t t' Hj. apply Hstep. lia.
Qed.
End LoopFacts.

(** ** [calcSMA] *)

Lemma calcSMA_degenerate (p : list float) (n : Z) :
  n < 1 \/ Z.of_nat (length p) < n ->
  calcSMA p n = Some (replicate (length p) nan).
Proof.
  intros H. unfold calcSMA.
  destruct (Z.ltb_spec n 1); simpl; [reflexivity|].
  destruct (Z.ltb_spec (Z.of_nat (length p)) n); [reflexivity | lia].
Qed.

Lemma prefix_sum_loop (p : list float) (n : Z) :
  0 <= n <= Z.of_nat (length p) ->
  for_loop (fun i sum => x ← vget p i; Some (sum + x)%float) 0 n 0%float
  = Some (fold_left PrimFloat.add (take (Z.to_nat n) p) 0%float).
Proof.
  intros Hn.
  destruct (for_loop_total (fun i sum => x ← vget p i; Some (sum + x)%float)
              (fun i sum => sum = fold_left PrimFloat.add (take (Z.to_nat i) p) 0%float)
              0 n 0%float) as (s' & Hs' & ->); [lia | reflexivity | | exact Hs'].
  intros j t Hj ->.
  destruct (vget_in_range p j) as [x Hx]; [lia|].
  rewrite Hx. simpl. eexists. split; [reflexivity|].
  apply vget_Some in Hx as [_ Hx].
  replace (Z.to_nat (j + 1)) with (S (Z.to_nat j)) by lia.
  rewrite (take_S_r _ _ _ Hx), fold_left_app. reflexivity.
Qed.

Lemma running_sum_S (p : list float) (n k : nat) (a b : float) :
  p !! (n + k)%nat = Some a -> p !! k = Some b ->
  running_sum p n (S k) = (running_sum p n k + (a - b))%float.
Proof.
  intros Ha Hb. simpl.
  now rewrite (list_lookup_total_correct _ _ _ Ha), (list_lookup_total_correct _ _ _ Hb).
Qed.

Lemma calcSMA_refines (p : list float) (n : Z) :
  1 <= n <= Z.of_nat (length p) ->
  exists sma, calcSMA p n = Some sma /\ length sma = length p /\
    forall i, (i < length p)%nat -> sma !! i = Some (sma_spec p (Z.to_nat n) i).
Proof.
  intros Hn. unfold calcSMA.
  destruct (Z.ltb_spec n 1); [lia|].
  destruct (Z.ltb_spec (Z.of_nat (length p)) n); [lia|]. simpl.
  rewrite prefix_sum_loop by lia. simpl.
  rewrite vset_in_range by (rewrite length_replicate; lia). simpl.
  set (S0 := fold_left PrimFloat.add (take (Z.to_nat n) p) 0%float).
  set (body := fun (i : Z) '(sum, sma) => _).
  destruct (for_loop_total body
    (fun i '(sum, sma) =>
       sum = running_sum p (Z.to_nat n) (Z.to_nat (i - n)) /\
       length sma = length p /\
       forall j, (j < length p)%nat ->
         sma !! j = Some (if (j <? Z.to_nat i)%nat then sma_spec p (Z.to_nat n) j else nan))
    n (Z.of_nat (length p))
    (S0, <[Z.to_nat (n - 1) := (S0 / double_of_int n)%float]> (replicate (length p) nan)))
    as ([sum sma] & Hrun & _ & Hlen & Hsma); [lia | | |].
  - split; [|split].
    + now replace (Z.to_nat (n - n)) with O by lia.
    + now rewrite length_insert, length_replicate.
    + intros j Hj. destruct (decide (j = Z.to_nat (n - 1))) as [->|Hne].
      * rewrite list_lookup_insert_eq by (rewrite length_replicate; lia).
        destruct (Nat.ltb_spec (Z.to_nat (n - 1)) (Z.to_nat n)); [|lia].
        unfold sma_spec.
        destruct (Nat.ltb_spec (Z.to_nat (n - 1)) (Z.to_nat n - 1)); [lia|].
        replace (Z.to_nat (n - 1) - (Z.to_nat n - 1))%nat with O by lia.
        now rewrite Z2Nat.id by lia.
      * rewrite list_lookup_insert_ne by congruence.
        rewrite lookup_replicate_2 by lia.
        destruct (Nat.ltb_spec j (Z.to_nat n)); [|reflexivity].
        unfold sma_spec.
        destruct (Nat.ltb_spec j (Z.to_nat n - 1)); [reflexivity | lia].
  - intros j [sum sma] Hj (Hsum & Hlen & Hsma). unfold body.
    destruct (vget_in_range p j) as [a Ha]; [lia|].
    destruct (vget_in_range p (j - n)) as [b Hb]; [lia|].
    rewrite Ha, Hb. simpl.
    rewrite vset_in_range by lia. simpl.
    eexists. split; [reflexivity|].
    apply vget_Some in Ha as [_ Ha]. apply vget_Some in Hb as [_ Hb].
    assert (Hsum' : (sum + (a - b))%float
                    = running_sum p (Z.to_nat n) (Z.to_nat (j + 1 - n))).
    { replace (Z.to_nat (j + 1 - n)) with (S (Z.to_nat (j - n))) by lia.
      rewrite (running_sum_S p _ _ a b), Hsum; [reflexivity | | assumption].
      now replace (Z.to_nat n + Z.to_nat (j - n))%nat with (Z.to_nat j) by lia. }
    split; [exact Hsum' | split].
    + now rewrite length_insert.
    + intros i Hi. destruct (decide (i = Z.to_nat j)) as [->|Hne].
      * rewrite list_lookup_insert_eq by lia.
        destruct (Nat.ltb_spec (Z.to_nat j) (Z.to_nat (j + 1))); [|lia].
        unfold sma_spec.
        destruct (Nat.ltb_spec (Z.to_nat j) (Z.to_nat n - 1)); [lia|].
        rewrite Hsum'. rewrite Z2Nat.id by lia.
        now replace (Z.to_nat j - (Z.to_nat n - 1))%nat with (Z.to_nat (j + 1 - n)) by lia.
      * rewrite list_lookup_insert_ne by congruence.
        rewrite (Hsma i Hi).
        destruct (Nat.ltb_spec i (Z.to_nat j)), (Nat.ltb_spec i (Z.to_nat (j + 1)));
          try reflexivity; lia.
  - simpl. exists sma. split; [now rewrite Hrun | split; [assumption|]].
    intros i Hi. rewrite (Hsma i Hi).
    destruct (Nat.ltb_spec i (Z.to_nat (Z.of_nat (length p)))); [reflexivity | lia].
Qed.

Lemma sma_spec_warmup (p : list float) (n i : nat) :
  (i < n - 1)%nat -> sma_spec p n i = nan.
Proof.
  intros H. unfold sma_spec.
  destruct (Nat.ltb_spec i (n - 1)); [reflexivity | lia].
Qed.

Lemma sma_spec_defined (p : list float) (n i : nat) :
  (n - 1 <= i)%nat ->
  sma_spec p n i
  = (running_sum p n (i - (n - 1)) / double_of_int (Z.of_nat n))%float.
Proof.
  intros H. unfold sma_spec.
  destruct (Nat.ltb_spec i (n - 1)); [lia | reflexivity].
Qed.

(** C6: a window below 1 or above the number of prices yields, without
    failing, a series as long as the prices whose every entry is the
    undefined marker (NaN). *)
Theorem calcSMA_window_out_of_range (p : list float) (n : Z) :
  n < 1 \/ Z.of_nat (length p) < n ->
  exists sma,
    calcSMA p n = Some sma /\
    length sma = length p /\
    forall i x, sma !! i = Some x -> x = nan.
Proof.
  intros H. exists (replicate (length p) nan).
  split; [now apply calcSMA_degenerate | split].
  - apply length_replicate.
  - intros i x Hx. now apply lookup_replicate in Hx as [-> _].
Qed.

Lemma calcSMA_window_out_of_range_witness :
  (0 < 1 \/ Z.of_nat (length [1; 2; 3]%float) < 0) /\
  exists sma,
    calcSMA [1; 2; 3]%float 0 = Some sma /\
    length sma = length [1; 2; 3]%float /\
    forall i x, sma !! i = Some x -> x = nan.
Proof.
  split; [left; lia|].
  apply (calcSMA_window_out_of_range [1; 2; 3]%float 0). left. lia.
Defined.

(** C1: for a window [n] with [1 <= n <= len p], [calcSMA] returns a
    series as long as [p]; positions [0 .. n-2] hold NaN, position [n-1]
    holds the sum of the first [n] prices divided by [n], and every
    position [i >= n] holds the running sum divided by [n], the running
    sum being updated at each index by [+ (p[i] - p[i-n])]. *)
Theorem calcSMA_windowed_mean (p : list float) (n : Z) :
  1 <= n <= Z.of_nat (length p) ->
  exists sma,
    calcSMA p n = Some sma /\
    length sma = length p /\
    (forall i, 0 <= i < n - 1 -> vget sma i = Some nan) /\
    vget sma (n - 1)
    = Some (fold_left PrimFloat.add (take (Z.to_nat n) p) 0 / double_of_int n)%float /\
    (forall i, n <= i < Z.of_nat (length p) ->
       vget sma i
       = Some (running_sum p (Z.to_nat n) (Z.to_nat (i - n + 1)) / double_of_int n)%float).
Proof.
  intros Hn. destruct (calcSMA_refines p n Hn) as (sma & Hrun & Hlen & Hsma).
  exists sma. split; [assumption | split; [assumption|]].
  assert (Hget : forall i, 0 <= i < Z.of_nat (length p) ->
                   vget sma i = Some (sma_spec p (Z.to_nat n) (Z.to_nat i))).
  { intros i Hi. apply vget_Some. split; [lia|]. apply Hsma. lia. }
  split; [|split].
  - intros i Hi. rewrite Hget by lia. now rewrite sma_spec_warmup by lia.
  - rewrite Hget by lia. rewrite sma_spec_defined by lia.
    replace (Z.to_nat (n - 1) - (Z.to_nat n - 1))%nat with O by lia.
    now rewrite Z2Nat.id by lia.
  - intros i Hi. rewrite Hget by lia. rewrite sma_spec_defined by lia.
    replace (Z.to_nat i - (Z.to_nat n - 1))%nat with (Z.to_nat (i - n + 1)) by lia.
    now rewrite Z2Nat.id by lia.
Qed.

Lemma calcSMA_windowed_mean_witness :
  let p := [10; 8; 12; 6; 7]%float in
  1 <= 2 <= Z.of_nat (length p) /\
  exists sma,
    calcSMA p 2 = Some sma /\
    length sma = length p /\
    (forall i, 0 <= i < 2 - 1 -> vget sma i = Some nan) /\
    vget sma (2 - 1)
    = Some (fold_left PrimFloat.add (take (Z.to_nat 2) p) 0 / double_of_int 2)%float /\
    (forall i, 2 <= i < Z.of_nat (length p) ->
       vget sma i
       = Some (running_sum p (Z.to_nat 2) (Z.to_nat (i - 2 + 1)) / double_of_int 2)%float).
Proof.
  split; [simpl; lia|].
  apply (calcSMA_windowed_mean [10; 8; 12; 6; 7]%float 2). simpl. lia.
Defined.

(** ** IEEE facts used by the simulator *)

Lemma SFcompare_refl (x : spec_float) :
  x <> S754_nan -> SFcompare x x = Some Eq.
Proof.
  destruct x as [[]|[]| |[] m e]; simpl; try reflexivity; try congruence;
    intros _; rewrite Z.compare_refl, Pos.compare_cont_refl; reflexivity.
Qed.

Lemma is_nan_spec (x : float) : is_nan x = true <-> Prim2SF x = S754_nan.
Proof.
  unfold is_nan. rewrite FloatAxioms.eqb_spec. unfold SFeqb. split.
  - intros H. destruct (Prim2SF x) eqn:E; try reflexivity;
      rewrite SFcompare_refl in H by discriminate; discriminate.
  - intros ->. reflexivity.
Qed.

Lemma is_nan_false (x : float) : is_nan x = false <-> Prim2SF x <> S754_nan.
Proof.
  rewrite <- is_nan_spec. destruct (is_nan x); split; congruence.
Qed.

Lemma sub_diag (c : float) :
  Prim2SF (c - c) = S754_nan \/ Prim2SF (c - c) = S754_zero false.
Proof.
  rewrite FloatAxioms.sub_spec. unfold SF64sub.
  destruct (Prim2SF c) as [[]|[]| |[] m e]; simpl; auto;
    rewrite Z.sub_diag; simpl; auto.
Qed.

Lemma add_zero_same (x z : float) :
  Prim2SF z = S754_zero false -> same_number (Prim2SF (x + z)) (Prim2SF x).
Proof.
  intros Hz. rewrite FloatAxioms.add_spec, Hz. unfold SF64add, same_number.
  destruct (Prim2SF x) as [[]|[]| |[] m e]; simpl; eauto.
Qed.

Lemma add_nan_r (x z : float) : is_nan z = true -> is_nan (x + z) = true.
Proof.
  rewrite !is_nan_spec, FloatAxioms.add_spec. intros ->. unfold SF64add.
  destruct (Prim2SF x); reflexivity.
Qed.

Lemma div_nan_l (x y : float) : is_nan x = true -> is_nan (x / y) = true.
Proof.
  rewrite !is_nan_spec, FloatAxioms.div_spec. intros ->. reflexivity.
Qed.

Lemma div_same (x x' y : float) :
  same_number (Prim2SF x) (Prim2SF x') ->
  same_number (Prim2SF (x / y)) (Prim2SF (x' / y)).
Proof.
  rewrite !FloatAxioms.div_spec. unfold SF64div, same_number.
  intros [-> | (s & s' & -> & ->)]; [now left|].
  destruct (Prim2SF y) as [[]|[]| |[] m e]; simpl; eauto.
Qed.

Lemma sub_alike (a a' b b' : float) :
  alike a a' -> alike b b' -> alike (a - b) (a' - b').
Proof.
  unfold alike. rewrite !is_nan_spec, !FloatAxioms.sub_spec.
  unfold SF64sub, same_number.
  intros [Ha | [Ha | Ha]].
  { rewrite Ha. now left. }
  { rewrite Ha. now right; left. }
  intros [Hb | [Hb | Hb]].
  { rewrite Hb. left. now destruct (Prim2SF a). }
  { rewrite Hb. right; left. now destruct (Prim2SF a'). }
  right; right.
  destruct Ha as [-> | (s & s' & -> & ->)], Hb as [-> | (t & t' & -> & ->)].
  - now left.
  - destruct (Prim2SF a') as [[]|[]| |[] m e], t, t'; simpl; eauto 10.
  - destruct (Prim2SF b') as [[]|[]| |[] m e], s, s'; simpl; eauto 10.
  - destruct s, s', t, t'; simpl; eauto 10.
Qed.

Lemma no_golden_cross (d d' : float) :
  alike d d' -> is_nan d || is_nan d' = false ->
  (d <? 0)%float && (0 <? d')%float = false.
Proof.
  intros H Hn. apply orb_false_iff in Hn as [Hd Hd'].
  destruct H as [H | [H | H]]; [congruence | congruence |].
  rewrite !FloatAxioms.ltb_spec. change (Prim2SF 0) with (S754_zero false).
  unfold SFltb.
  destruct H as [-> | (s & s' & -> & ->)]; [|reflexivity].
  destruct (Prim2SF d') as [[]|[]| |[] m e]; reflexivity.
Qed.

Lemma no_death_cross (d d' : float) :
  alike d d' -> is_nan d || is_nan d' = false ->
  (0 <? d)%float && (d' <? 0)%float = false.
Proof.
  intros H Hn. apply orb_false_iff in Hn as [Hd Hd'].
  destruct H as [H | [H | H]]; [congruence | congruence |].
  rewrite !FloatAxioms.ltb_spec. change (Prim2SF 0) with (S754_zero false).
  unfold SFltb.
  destruct H as [-> | (s & s' & -> & ->)]; [|reflexivity].
  destruct (Prim2SF d') as [[]|[]| |[] m e]; reflexivity.
Qed.

(** ** The average of a flat series *)

Lemma alike_nan_l (x y : float) : is_nan x = true -> alike x y.
Proof. intros H. now left. Qed.

Lemma sma_spec_flat_alike (c : float) (N n i : nat) :
  (1 <= n)%nat -> (i + 1 < N)%nat ->
  alike (sma_spec (replicate N c) n i) (sma_spec (replicate N c) n (i + 1)).
Proof.
  intros Hn Hi. destruct (Nat.lt_ge_cases i (n - 1)) as [Hlt | Hge].
  - rewrite sma_spec_warmup by assumption. now apply alike_nan_l.
  - rewrite !sma_spec_defined by lia.
    replace (i + 1 - (n - 1))%nat with (S (i - (n - 1))) by lia.
    set (k := (i - (n - 1))%nat).
    rewrite (running_sum_S _ n k c c)
      by (apply lookup_replicate_2; unfold k; lia).
    destruct (sub_diag c) as [Hnan | Hzero].
    + right; left. apply div_nan_l, add_nan_r. now apply is_nan_spec.
    + right; right. apply div_same.
      destruct (add_zero_same (running_sum (replicate N c) n k) (c - c) Hzero)
        as [-> | (s & s' & -> & ->)]; [now left | right; eauto].
Qed.

Lemma calcSMA_flat (c : float) (N : nat) (n : Z) :
  exists sma,
    calcSMA (replicate N c) n = Some sma /\ length sma = N /\
    forall i x y, 1 <= i -> vget sma (i - 1) = Some x -> vget sma i = Some y ->
                  alike x y.
Proof.
  destruct (Z_lt_ge_dec n 1) as [Hlo | Hlo];
    [| destruct (Z_lt_ge_dec (Z.of_nat N) n) as [Hhi | Hhi]].
  1, 2: exists (replicate N nan); split; [|split];
    [ rewrite calcSMA_degenerate by (rewrite length_replicate; lia);
      now rewrite length_replicate
    | apply length_replicate
    | intros i x y _ Hx _; apply vget_Some in Hx as [_ Hx];
      apply lookup_replicate in Hx as [-> _]; now apply alike_nan_l ].
  destruct (calcSMA_refines (replicate N c) n) as (sma & Hrun & Hlen & Hsma).
  { rewrite length_replicate. lia. }
  rewrite length_replicate in Hlen, Hsma.
  exists sma. split; [assumption | split; [assumption|]].
  intros i x y Hi Hx Hy.
  apply vget_Some in Hx as [_ Hx]. apply vget_Some in Hy as [_ Hy].
  assert (Hlt : (Z.to_nat i < N)%nat).
  { rewrite <- Hlen. now apply lookup_lt_Some in Hy. }
  rewrite Hsma in Hx by lia. rewrite Hsma in Hy by lia.
  injection Hx as <-. injection Hy as <-.
  replace (Z.to_nat i) with (Z.to_nat (i - 1) + 1)%nat by lia.
  apply sma_spec_flat_alike; lia.
Qed.

(** ** [simulateWithCapitalRange] *)

Section SimulatorFacts.
Variable cast_oor : float -> Z.
Variables prices smaS smaL : list float.


Lemma clamp_end_lt (endIdx : Z) :
  prices <> [] -> clamp_end prices endIdx < Z.of_nat (length prices).
Proof.
  intros Hne. unfold clamp_end.
  destruct (Z.leb_spec (Z.of_nat (length prices)) endIdx); lia.
Qed.

Lemma clamp_start_nonneg (startIdx : Z) : 0 <= clamp_start startIdx.
Proof. unfold clamp_start. destruct (Z.ltb_spec startIdx 0); lia. Qed.

(** Every read of an iteration is in bounds when the averages are as
    long as the prices. *)
Lemma step_total (startIdx i : Z) (sj : state * list trade) :
  (length prices <= length smaS)%nat ->
  (length prices <= length smaL)%nat ->
  1 <= i < Z.of_nat (length prices) ->
  exists sj', step cast_oor prices smaS smaL startIdx i sj = Some sj'.
Proof.
  intros HS HL Hi. destruct sj as [st j]. unfold step.
  destruct (vget_in_range smaS (i - 1)) as [sp ->]; [lia|].
  destruct (vget_in_range smaL (i - 1)) as [lp ->]; [lia|].
  destruct (vget_in_range smaS i) as [sn ->]; [lia|].
  destruct (vget_in_range smaL i) as [ln ->]; [lia|].
  destruct (vget_in_range prices i) as [pi ->]; [lia|].
  simpl.
  repeat match goal with |- context [if ?b then _ else _] => destruct b end;
    eauto.
Qed.

Lemma liquidate_total (endIdx : Z) (sj : state * list trade) :
  0 <= endIdx < Z.of_nat (length prices) ->
  exists sj', liquidate prices endIdx sj = Some sj'.
Proof.
  intros He. destruct sj as [st j]. unfold liquidate.
  destruct (vget_in_range prices endIdx) as [pe ->]; [lia|]. simpl.
  destruct (0 <? shares st); eauto.
Qed.

Lemma simulate_journal_total (startIdx endIdx : Z) :
  (length prices <= length smaS)%nat ->
  (length prices <= length smaL)%nat ->
  exists r, simulate_journal cast_oor prices smaS smaL startIdx endIdx = Some r.
Proof.
  intros HS HL. unfold simulate_journal.
  destruct (Z.eqb_spec (Z.of_nat (length prices)) 0) as [|HN]; [eauto|].
  assert (Hne : prices <> []) by (intros ->; simpl in HN; lia).
  pose proof (clamp_end_lt endIdx Hne) as He.
  pose proof (clamp_start_nonneg startIdx) as Hs.
  destruct (Z.leb_spec (clamp_end prices endIdx) (clamp_start startIdx)); [eauto|].
  set (s1 := if clamp_start startIdx <? 1 then 1 else clamp_start startIdx).
  assert (Hs1 : 1 <= s1 <= clamp_end prices endIdx).
  { unfold s1. destruct (Z.ltb_spec (clamp_start startIdx) 1); lia. }
  destruct (for_loop_total (step cast_oor prices smaS smaL s1) (fun _ _ => True) s1
              (clamp_end prices endIdx + 1) (init_state, []))
    as (sj & Hloop & _); [lia | exact I | |].
  - intros i sj Hi _. destruct (step_total s1 i sj HS HL) as [sj' ->]; [lia|].
    eauto.
  - unfold trading_loop. rewrite Hloop. simpl.
    destruct (liquidate_total (clamp_end prices endIdx) sj) as [[st j] ->]; [lia|].
    simpl. eauto.
Qed.

Lemma round_trips_S (k : nat) :
  round_trips (S k) = round_trips k ++ [Buy; Sell].
Proof.
  unfold round_trips. rewrite replicate_S_end, concat_app. reflexivity.
Qed.

Lemma balanced_init : balanced (init_state, []).
Proof. exists O. left. repeat split. Qed.

Lemma balanced_sell (st : state) (j : list trade) (c : float) :
  balanced (st, j) -> 0 < shares st ->
  balanced ({| cash := c; shares := 0; trades := trades st + 1 |}, j ++ [Sell]).
Proof.
  intros (k & [(H0 & _) | (_ & Ht & Hj)]) Hpos; simpl in *; [lia|].
  exists (S k). left. simpl. repeat split; [lia|].
  rewrite Hj, round_trips_S, <- app_assoc. reflexivity.
Qed.

Lemma balanced_buy (st : state) (j : list trade) (c : float) (b : Z) :
  balanced (st, j) -> shares st = 0 -> 0 < b ->
  balanced ({| cash := c; shares := shares st + b; trades := trades st + 1 |},
            j ++ [Buy]).
Proof.
  intros (k & [(_ & Ht & Hj) | (Hpos & _)]) H0 Hb; simpl in *; [|lia].
  exists k. right. simpl. repeat split; [lia | lia | now rewrite Hj].
Qed.

Lemma step_balanced (startIdx i : Z) (sj sj' : state * list trade) :
  balanced sj -> step cast_oor prices smaS smaL startIdx i sj = Some sj' ->
  balanced sj'.
Proof.
  destruct sj as [st j]. intros Hb. unfold step.
  destruct (vget smaS (i - 1)) as [sp|]; [simpl | discriminate].
  destruct (vget smaL (i - 1)) as [lp|]; [simpl | discriminate].
  destruct (vget smaS i) as [sn|]; [simpl | discriminate].
  destruct (vget smaL i) as [ln|]; [simpl | discriminate].
  destruct (is_nan (sp - lp) || is_nan (sn - ln)); [now intros [= <-]|].
  destruct (negb (i =? startIdx) && (shares st =? 0) && (sp - lp <? 0)%float
            && (0 <? sn - ln)%float) eqn:Hbuy.
  - destruct (vget prices i) as [pi|]; [simpl | discriminate].
    destruct (Z.ltb_spec 0 (int_of_double cast_oor (cash st / pi)));
      intros [= <-]; [|assumption].
    apply balanced_buy; [assumption | | assumption].
    apply andb_prop in Hbuy as [Hbuy _]. apply andb_prop in Hbuy as [Hbuy _].
    apply andb_prop in Hbuy as [_ Hbuy]. now apply Z.eqb_eq.
  - destruct ((0 <? shares st) && (0 <? sp - lp)%float && (sn - ln <? 0)%float)
      eqn:Hsell; [|now intros [= <-]].
    destruct (vget prices i) as [pi|]; [simpl | discriminate].
    intros [= <-]. apply balanced_sell; [assumption|].
    apply andb_prop in Hsell as [Hsell _]. apply andb_prop in Hsell as [Hsell _].
    now apply Z.ltb_lt.
Qed.

Lemma liquidate_balanced (endIdx : Z) (sj sj' : state * list trade) :
  balanced sj -> liquidate prices endIdx sj = Some sj' ->
  exists k : nat, trades sj'.1 = 2 * Z.of_nat k /\ sj'.2 = round_trips k /\
                  shares sj'.1 = 0.
Proof.
  destruct sj as [st j]. intros Hb. unfold liquidate.
  destruct (Z.ltb_spec 0 (shares st)) as [Hpos | Hle].
  - destruct (vget prices endIdx) as [pe|]; [simpl | discriminate].
    intros [= <-].
    destruct (balanced_sell st j (cash st + double_of_int (shares st) * pe) Hb Hpos)
      as (k & [(H0 & Ht & Hj) | (H0 & _)]); simpl in *; [eauto | lia].
  - intros [= <-]. destruct Hb as (k & [(H0 & Ht & Hj) | (H0 & _)]);
      simpl in *; [eauto | lia].
Qed.

Lemma trading_loop_balanced (startIdx endIdx : Z) (sj : state * list trade) :
  trading_loop cast_oor prices smaS smaL startIdx endIdx = Some sj -> balanced sj.
Proof.
  unfold trading_loop. apply for_loop_partial; [apply balanced_init|].
  intros i t t' _. apply step_balanced.
Qed.
End SimulatorFacts.

(** C5: on an empty price series, or when the clamped [startIdx] is not
    below the clamped [endIdx], the simulator returns the initial state,
    [finalCapital = INITIAL = 10000] and [tradeCount = 0], and trades
    nothing. *)
Theorem simulate_degenerate_range
  (cast_oor : float -> Z) (prices smaS smaL : list float) (startIdx endIdx : Z) :
  prices = [] \/ clamp_end prices endIdx <= clamp_start startIdx ->
  simulateWithCapitalRange cast_oor prices smaS smaL startIdx endIdx
  = Some {| finalCapital := 10000; tradeCount := 0 |} /\
  simulate_journal cast_oor prices smaS smaL startIdx endIdx
  = Some ({| finalCapital := INITIAL; tradeCount := 0 |}, []).
Proof.
  intros H.
  assert (Hj : simulate_journal cast_oor prices smaS smaL startIdx endIdx
               = Some no_trade).
  { unfold simulate_journal.
    destruct (Z.eqb_spec (Z.of_nat (length prices)) 0) as [|HN]; [reflexivity|].
    destruct H as [-> | H]; [now simpl in HN|].
    destruct (Z.leb_spec (clamp_end prices endIdx) (clamp_start startIdx));
      [reflexivity | lia]. }
  unfold simulateWithCapitalRange. rewrite Hj. split; reflexivity.
Qed.

Lemma simulate_degenerate_range_witness :
  let p := [10; 8; 12; 6; 7]%float in
  (p = [] \/ clamp_end p 9 <= clamp_start 4) /\
  simulateWithCapitalRange cast_oor_x86 p p p 4 9
  = Some {| finalCapital := 10000; tradeCount := 0 |} /\
  simulate_journal cast_oor_x86 p p p 4 9
  = Some ({| finalCapital := INITIAL; tradeCount := 0 |}, []).
Proof.
  split; [right; vm_compute; discriminate|].
  apply (simulate_degenerate_range cast_oor_x86 [10; 8; 12; 6; 7]%float).
  right. vm_compute. discriminate.
Defined.

(** C4: no buy is executed at the index equal to the clamped
    [startIdx].  The simulator clamps [startIdx] to [0] and then to [1],
    and its loop tests [isFirstDay] against that index: the day there
    starts flat and is shut out of buying, so it changes nothing, a
    golden cross on it included.  A simulation is therefore the loop
    over the days after the clamped start, run from the initial state,
    followed by the forced sale; this holds of every range, degenerate
    ones included, the averages being as long as the prices. *)
Theorem first_day_never_buys
  (cast_oor : float -> Z) (prices smaS smaL : list float) (startIdx endIdx : Z) :
  let first := if clamp_start startIdx <? 1 then 1 else clamp_start startIdx in
  let e := clamp_end prices endIdx in
  (length prices <= length smaS)%nat ->
  (length prices <= length smaL)%nat ->
  let later_days :=
    sj ← for_loop (step cast_oor prices smaS smaL first) (first + 1) (e + 1)
                  (init_state, []);
    '(st, j) ← liquidate prices e sj;
    Some ({| finalCapital := cash st; tradeCount := trades st |}, j) in
  simulate_journal cast_oor prices smaS smaL startIdx endIdx = later_days /\
  simulateWithCapitalRange cast_oor prices smaS smaL startIdx endIdx
  = fst <$> later_days.
Proof.
  intros first e HS HL later_days.
  assert (Hj : simulate_journal cast_oor prices smaS smaL startIdx endIdx
               = later_days).
  { pose proof (clamp_start_nonneg startIdx) as Hs.
    assert (Hfirst : 1 <= first /\ clamp_start startIdx <= first /\
                     (first = 1 \/ first = clamp_start startIdx)).
    { unfold first. destruct (Z.ltb_spec (clamp_start startIdx) 1); lia. }
    assert (Hflat : e <= clamp_start startIdx -> later_days = Some no_trade).
    { intros Hle. unfold later_days. rewrite for_loop_empty by lia. reflexivity. }
    unfold simulate_journal.
    destruct (Z.eqb_spec (Z.of_nat (length prices)) 0) as [HN|HN].
    { symmetry. apply Hflat. unfold e, clamp_end.
      destruct (Z.leb_spec (Z.of_nat (length prices)) endIdx); lia. }
    assert (Hne : prices <> []) by (intros ->; simpl in HN; lia).
    pose proof (clamp_end_lt prices endIdx Hne) as He.
    fold e. fold e in He.
    destruct (Z.leb_spec e (clamp_start startIdx)) as [Hle|Hlt];
      [symmetry; now apply Hflat|].
    fold first. unfold trading_loop, later_days.
    rewrite (for_loop_first _ first (e + 1)) by lia.
    assert (Hday : step cast_oor prices smaS smaL first first (init_state, [])
                   = Some (init_state, [])).
    { unfold step.
      destruct (vget_in_range smaS (first - 1)) as [sp ->]; [lia|].
      destruct (vget_in_range smaL (first - 1)) as [lp ->]; [lia|].
      destruct (vget_in_range smaS first) as [sn ->]; [lia|].
      destruct (vget_in_range smaL first) as [ln ->]; [lia|].
      simpl. rewrite Z.eqb_refl. simpl.
      destruct (is_nan (sp - lp) || is_nan (sn - ln)); reflexivity. }
    rewrite Hday. reflexivity. }
  split; [exact Hj|].
  unfold simulateWithCapitalRange. now rewrite Hj.
Qed.

(** A golden cross at index 1: bought when the start is elsewhere ... *)
Example golden_cross_buys :
  step cast_oor_x86 [5; 5]%float [0; 2]%float [1; 1]%float 0 1 (init_state, [])
  = Some ({| cash := 0; shares := 2000; trades := 1 |}, [Buy]).
Proof. vm_compute. reflexivity. Qed.

(** ... as it is by the simulator on the second day of the range
    (bought at 5, sold at 8 by the forced sale) ... *)
Example golden_cross_after_first_day_buys :
  simulate_journal cast_oor_x86 [5; 5; 5; 4; 8]%float [0; 0; 2; 2; 2]%float
                   [1; 1; 1; 1; 1]%float 0 4
  = Some ({| finalCapital := 16000; tradeCount := 2 |}, [Buy; Sell]).
Proof. vm_compute. reflexivity. Qed.

(** ... and let pass on the first: the range [0..3] is clamped to start
    at index 1, where the short average crosses above the long one. *)
Lemma first_day_never_buys_witness :
  let prices := [5; 5; 4; 8]%float in
  let smaS := [0; 2; 2; 2]%float in
  let smaL := [1; 1; 1; 1]%float in
  let first := if clamp_start 0 <? 1 then 1 else clamp_start 0 in
  let e := clamp_end prices 3 in
  ((length prices <= length smaS)%nat /\ (length prices <= length smaL)%nat) /\
  (first = 1 /\ (0 - 1 <? 0)%float && (0 <? 2 - 1)%float = true) /\
  simulate_journal cast_oor_x86 prices smaS smaL 0 3
  = Some ({| finalCapital := 10000; tradeCount := 0 |}, []) /\
  let later_days :=
    sj ← for_loop (step cast_oor_x86 prices smaS smaL first) (first + 1) (e + 1)
                  (init_state, []);
    '(st, j) ← liquidate prices e sj;
    Some ({| finalCapital := cash st; tradeCount := trades st |}, j) in
  simulate_journal cast_oor_x86 prices smaS smaL 0 3 = later_days /\
  simulateWithCapitalRange cast_oor_x86 prices smaS smaL 0 3
  = fst <$> later_days.
Proof.
  split; [split; simpl; lia|].
  split; [split; vm_compute; reflexivity|].
  split; [vm_compute; reflexivity|].
  apply (first_day_never_buys cast_oor_x86 [5; 5; 4; 8]%float [0; 2; 2; 2]%float
           [1; 1; 1; 1]%float 0 3); simpl; lia.
Defined.



(** C9: the simulator never fails.  In the data model both averages are
    aligned with the price series, index by index (the sweep passes
    [calcSMA] outputs, which have the length of the prices); with
    averages so aligned, every access of the simulator is in bounds and
    it returns an outcome, for all prices, averages and integer indices.
    The statement asks only for averages at least as long as the
    prices. *)
Theorem simulate_never_fails_on_aligned_averages
  (cast_oor : float -> Z) (prices smaS smaL : list float) (startIdx endIdx : Z) :
  (length prices <= length smaS)%nat ->
  (length prices <= length smaL)%nat ->
  exists r : SimResult,
    simulateWithCapitalRange cast_oor prices smaS smaL startIdx endIdx = Some r.
Proof.
  intros HS HL. unfold simulateWithCapitalRange.
  destruct (simulate_journal_total cast_oor prices smaS smaL startIdx endIdx HS HL)
    as [[r j] ->].
  exists r. reflexivity.
Qed.

Lemma simulate_never_fails_on_aligned_averages_witness :
  let p := [10; 8; 12; 6; 7]%float in
  let smaL := [nan; 9; 10; 9; 6.5]%float in
  ((length p <= length p)%nat /\ (length p <= length smaL)%nat) /\
  exists r : SimResult,
    simulateWithCapitalRange cast_oor_x86 p p smaL (-3) 100 = Some r.
Proof.
  split; [split; simpl; lia|].
  apply (simulate_never_fails_on_aligned_averages cast_oor_x86
           [10; 8; 12; 6; 7]%float [10; 8; 12; 6; 7]%float
           [nan; 9; 10; 9; 6.5]%float (-3) 100); simpl; lia.
Defined.

(** The alignment is the caller's to keep: the simulator clamps the
    indices against the prices only, and reads the averages unchecked. *)
Remark simulate_short_average_out_of_bounds :
  simulateWithCapitalRange cast_oor_x86 [1; 2; 3]%float [1; 2]%float [1; 2]%float 0 2
  = None.
Proof. vm_compute. reflexivity. Qed.

Lemma count_trades_app (t : trade) (j1 j2 : list trade) :
  count_trades t (j1 ++ j2) = (count_trades t j1 + count_trades t j2)%nat.
Proof. unfold count_trades. now rewrite filter_app, length_app. Qed.

Lemma count_trades_round_trips (t : trade) (k : nat) :
  count_trades t (round_trips k) = k.
Proof.
  induction k as [|k IH]; [reflexivity|].
  rewrite round_trips_S, count_trades_app, IH.
  destruct t;
    [ change (count_trades Buy [Buy; Sell]) with 1%nat
    | change (count_trades Sell [Buy; Sell]) with 1%nat ]; lia.
Qed.

Lemma length_round_trips (k : nat) : length (round_trips k) = (2 * k)%nat.
Proof.
  induction k as [|k IH]; [reflexivity|].
  rewrite round_trips_S, length_app, IH. simpl. lia.
Qed.

(** C10: the count returned is even.  The journal of a simulation is a
    sequence of round trips, buy then sell: the position goes from flat
    to holding and back, every buy is followed by its sell (the last one
    possibly the forced sale), and the count is twice the number of
    buys. *)
Theorem trade_count_is_even
  (cast_oor : float -> Z) (prices smaS smaL : list float) (startIdx endIdx : Z)
  (r : SimResult) :
  simulateWithCapitalRange cast_oor prices smaS smaL startIdx endIdx = Some r ->
  exists j : list trade,
    simulate_journal cast_oor prices smaS smaL startIdx endIdx = Some (r, j) /\
    Z.even (tradeCount r) = true /\
    tradeCount r = Z.of_nat (length j) /\
    tradeCount r = 2 * Z.of_nat (count_trades Buy j) /\
    count_trades Sell j = count_trades Buy j /\
    j = round_trips (count_trades Buy j).
Proof.
  unfold simulateWithCapitalRange. intros H.
  destruct (simulate_journal cast_oor prices smaS smaL startIdx endIdx)
    as [[r' j]|] eqn:Hj; [|discriminate].
  injection H as ->. exists j. split; [reflexivity|].
  assert (Hk : exists k : nat, tradeCount r = 2 * Z.of_nat k /\ j = round_trips k).
  { unfold simulate_journal in Hj.
    destruct (Z.of_nat (length prices) =? 0);
      [injection Hj as <- <-; now exists O|].
    destruct (clamp_end prices endIdx <=? clamp_start startIdx);
      [injection Hj as <- <-; now exists O|].
    destruct (trading_loop _ _ _ _ _ _) as [sj|] eqn:Hloop; [simpl in Hj | discriminate].
    apply trading_loop_balanced in Hloop.
    destruct (liquidate prices _ sj) as [[st j']|] eqn:Hliq; [simpl in Hj | discriminate].
    injection Hj as <- <-.
    destruct (liquidate_balanced prices _ _ _ Hloop Hliq) as (k & Ht & Hjk & _).
    exists k. simpl in *. split; assumption. }
  destruct Hk as (k & Ht & ->).
  rewrite !count_trades_round_trips, length_round_trips, Ht.
  repeat split; try lia.
  rewrite Z.even_mul. reflexivity.
Qed.

Lemma trade_count_is_even_witness :
  let p := [10; 8; 12; 6; 7]%float in
  let smaL := [nan; 9; 10; 9; 6.5]%float in
  let r := {| finalCapital := 5002; tradeCount := 4 |} in
  simulateWithCapitalRange cast_oor_x86 p p smaL 0 4 = Some r /\
  exists j : list trade,
    simulate_journal cast_oor_x86 p p smaL 0 4 = Some (r, j) /\
    Z.even (tradeCount r) = true /\
    tradeCount r = Z.of_nat (length j) /\
    tradeCount r = 2 * Z.of_nat (count_trades Buy j) /\
    count_trades Sell j = count_trades Buy j /\
    j = round_trips (count_trades Buy j).
Proof.
  split; [vm_compute; reflexivity|].
  apply (trade_count_is_even cast_oor_x86 [10; 8; 12; 6; 7]%float
           [10; 8; 12; 6; 7]%float [nan; 9; 10; 9; 6.5]%float 0 4
           {| finalCapital := 5002; tradeCount := 4 |}).
  vm_compute. reflexivity.
Defined.
(** ** A flat price series *)

(** With the position flat and averages that do not move from the eve to
    the day, an iteration changes nothing. *)
Lemma step_without_move
  (cast_oor : float -> Z) (prices smaS smaL : list float) (startIdx i : Z)
  (st : state) (j : list trade) (sp lp sn ln : float) :
  vget smaS (i - 1) = Some sp -> vget smaL (i - 1) = Some lp ->
  vget smaS i = Some sn -> vget smaL i = Some ln ->
  alike sp sn -> alike lp ln -> shares st = 0 ->
  step cast_oor prices smaS smaL startIdx i (st, j) = Some (st, j).
Proof.
  intros Hsp Hlp Hsn Hln HS HL H0. unfold step.
  rewrite Hsp, Hlp, Hsn, Hln. simpl.
  destruct (is_nan (sp - lp) || is_nan (sn - ln)) eqn:Hnan; [reflexivity|].
  pose proof (no_golden_cross _ _ (sub_alike _ _ _ _ HS HL) Hnan) as Hno.
  rewrite <- !andb_assoc, Hno, !andb_false_r, H0. reflexivity.
Qed.

(** C8: on a constant price series, for all periods and every index
    range, the averages are computed, on no day do they show a golden or
    a death cross, nothing is traded and the simulator returns
    [tradeCount = 0] and [finalCapital = INITIAL = 10000]. *)
Theorem flat_series_never_trades
  (cast_oor : float -> Z) (c : float) (N : nat) (short long startIdx endIdx : Z) :
  exists smaS smaL : list float,
    calcSMA (replicate N c) short = Some smaS /\
    calcSMA (replicate N c) long = Some smaL /\
    (forall (i : Z) (sp lp sn ln : float),
       1 <= i ->
       vget smaS (i - 1) = Some sp -> vget smaL (i - 1) = Some lp ->
       vget smaS i = Some sn -> vget smaL i = Some ln ->
       let dPrev := (sp - lp)%float in
       let dNow := (sn - ln)%float in
       is_nan dPrev || is_nan dNow = false ->
       (dPrev <? 0)%float && (0 <? dNow)%float = false /\
       (0 <? dPrev)%float && (dNow <? 0)%float = false) /\
    simulate_journal cast_oor (replicate N c) smaS smaL startIdx endIdx
    = Some ({| finalCapital := INITIAL; tradeCount := 0 |}, []) /\
    simulateWithCapitalRange cast_oor (replicate N c) smaS smaL startIdx endIdx
    = Some {| finalCapital := 10000; tradeCount := 0 |}.
Proof.
  destruct (calcSMA_flat c N short) as (smaS & HrunS & HlenS & HS).
  destruct (calcSMA_flat c N long) as (smaL & HrunL & HlenL & HL).
  exists smaS, smaL. split; [assumption | split; [assumption | split]].
  { intros i sp lp sn ln Hi Hsp Hlp Hsn Hln dPrev dNow Hnan.
    assert (Halike : alike dPrev dNow).
    { apply sub_alike; [apply (HS i) | apply (HL i)]; assumption. }
    split; [now apply no_golden_cross | now apply no_death_cross]. }
  set (prices := replicate N c).
  assert (Hlen : length prices = N) by apply length_replicate.
  assert (Hj : simulate_journal cast_oor prices smaS smaL startIdx endIdx
               = Some no_trade).
  { unfold simulate_journal.
    destruct (Z.eqb_spec (Z.of_nat (length prices)) 0) as [|HN]; [reflexivity|].
    assert (Hne : prices <> []) by (intros E; rewrite E in HN; simpl in HN; lia).
    pose proof (clamp_end_lt prices endIdx Hne) as He.
    pose proof (clamp_start_nonneg startIdx) as Hs.
    destruct (Z.leb_spec (clamp_end prices endIdx) (clamp_start startIdx));
      [reflexivity|].
    set (s1 := if clamp_start startIdx <? 1 then 1 else clamp_start startIdx).
    assert (Hs1 : 1 <= s1 <= clamp_end prices endIdx).
    { unfold s1. destruct (Z.ltb_spec (clamp_start startIdx) 1); lia. }
    destruct (for_loop_total (step cast_oor prices smaS smaL s1)
                (fun _ sj => sj = (init_state, [])) s1
                (clamp_end prices endIdx + 1) (init_state, []))
      as (sj & Hloop & ->); [lia | reflexivity | |].
    - intros i sj Hi ->. eexists. split; [|reflexivity].
      destruct (vget_in_range smaS (i - 1)) as [sp Hsp]; [lia|].
      destruct (vget_in_range smaL (i - 1)) as [lp Hlp]; [lia|].
      destruct (vget_in_range smaS i) as [sn Hsn]; [lia|].
      destruct (vget_in_range smaL i) as [ln Hln]; [lia|].
      apply (step_without_move _ _ _ _ _ _ _ _ sp lp sn ln); try assumption.
      + apply (HS i); [lia | assumption | assumption].
      + apply (HL i); [lia | assumption | assumption].
      + reflexivity.
    - unfold trading_loop. rewrite Hloop. reflexivity. }
  unfold simulateWithCapitalRange. rewrite Hj. split; reflexivity.
Qed.
(** ** The grid sweep *)

Lemma calcSMA_total (p : list float) (n : Z) :
  exists sma, calcSMA p n = Some sma /\ length sma = length p.
Proof.
  destruct (Z_lt_ge_dec n 1) as [Hlo | Hlo];
    [| destruct (Z_lt_ge_dec (Z.of_nat (length p)) n) as [Hhi | Hhi]].
  1, 2: exists (replicate (length p) nan);
        split; [apply calcSMA_degenerate; lia | apply length_replicate].
  destruct (calcSMA_refines p n) as (sma & Hrun & Hlen & _); [lia|].
  exists sma. split; assumption.
Qed.

(** The call of the sweep: the simulator on the averages [calcSMA]
    computed from the same prices returns, whatever the periods and the
    range. *)
Lemma simulate_total_on_calcSMA_outputs
  (cast_oor : float -> Z) (prices : list float) (s l startIdx endIdx : Z) :
  exists (smaS smaL : list float) (r : SimResult),
    calcSMA prices s = Some smaS /\ calcSMA prices l = Some smaL /\
    simulateWithCapitalRange cast_oor prices smaS smaL startIdx endIdx = Some r.
Proof.
  destruct (calcSMA_total prices s) as (smaS & HS & HlS).
  destruct (calcSMA_total prices l) as (smaL & HL & HlL).
  destruct (simulate_journal_total cast_oor prices smaS smaL startIdx endIdx)
    as [[r j] Hr]; [lia | lia |].
  exists smaS, smaL, r. split; [assumption|]. split; [assumption|].
  unfold simulateWithCapitalRange. now rewrite Hr.
Qed.

Lemma seqZ_snoc (m n : Z) : 0 <= n -> seqZ m (n + 1) = seqZ m n ++ [m + n].
Proof. intros Hn. rewrite seqZ_app by lia. reflexivity. Qed.

Section GridFacts.
Variable cast_oor : float -> Z.
Variable maxn : Z.
Variable prices : list float.
Variables startIdx endIdx : Z.
Hypothesis maxn_nonneg : 0 <= maxn.

Lemma precompute_sma_total :
  exists allSMA,
    precompute_sma maxn prices = Some allSMA /\
    forall n, 1 <= n <= maxn -> filled prices allSMA n.
Proof.
  unfold precompute_sma.
  destruct (for_loop_total
    (fun n allSMA => sma ← calcSMA prices n; vset allSMA n sma)
    (fun n allSMA => length allSMA = Z.to_nat (maxn + 1) /\
                     forall m, 1 <= m < n -> filled prices allSMA m)
    1 (maxn + 1) (replicate (Z.to_nat (maxn + 1)) []))
    as (allSMA & Hrun & _ & Hfilled); [lia | | |].
  - split; [apply length_replicate | intros m Hm; lia].
  - intros n allSMA Hn (Hlen & Hfilled).
    destruct (calcSMA_total prices n) as (sma & Hsma & Hl). rewrite Hsma. simpl.
    rewrite vset_in_range by lia. eexists. split; [reflexivity|]. split.
    + now rewrite length_insert.
    + intros m Hm. destruct (decide (m = n)) as [->|Hne].
      * exists sma. split; [|split; assumption].
        apply vget_Some. split; [lia|]. apply list_lookup_insert_eq. lia.
      * destruct (Hfilled m) as (sma' & Hget & Hrest); [lia|].
        exists sma'. split; [|assumption].
        apply vget_Some in Hget as [_ Hget]. apply vget_Some. split; [lia|].
        rewrite list_lookup_insert_ne by lia. assumption.
  - exists allSMA. split; [assumption|]. intros n Hn. apply Hfilled. lia.
Qed.

Lemma grid_cell_total (allSMA : list (list float)) (s l : Z) (g : sweep) :
  filled prices allSMA s -> filled prices allSMA l ->
  exists g' r,
    grid_cell cast_oor prices allSMA startIdx endIdx s l g = Some g' /\
    results g' = results g ++ [r] /\
    periods r = (s, l) /\
    cell_result cast_oor prices startIdx endIdx r.
Proof.
  intros (smaS & HgS & HcS & HlS) (smaL & HgL & HcL & HlL). unfold grid_cell.
  rewrite HgS, HgL. simpl.
  destruct (simulate_journal_total cast_oor prices smaS smaL startIdx endIdx)
    as [[sr j] Hj]; [lia | lia |].
  assert (Hsr : simulateWithCapitalRange cast_oor prices smaS smaL startIdx endIdx
                = Some sr).
  { unfold simulateWithCapitalRange. now rewrite Hj. }
  rewrite Hsr. simpl.
  destruct (bestCapital g <? finalCapital sr)%float;
    eexists; eexists; (split; [reflexivity|]); simpl;
    (split; [reflexivity|]); (split; [reflexivity|]);
    exists smaS, smaL, sr; simpl; auto.
Qed.

Lemma inner_loop_total (allSMA : list (list float)) (s : Z) (g : sweep) :
  (forall n, 1 <= n <= maxn -> filled prices allSMA n) -> 1 <= s <= maxn ->
  Forall (cell_result cast_oor prices startIdx endIdx) (results g) ->
  exists g',
    for_loop (fun l g => grid_cell cast_oor prices allSMA startIdx endIdx s l g)
             1 (maxn + 1) g = Some g' /\
    periods <$> results g'
    = (periods <$> results g) ++ ((fun l => (s, l)) <$> seqZ 1 maxn) /\
    Forall (cell_result cast_oor prices startIdx endIdx) (results g').
Proof.
  intros Hfilled Hs Hok.
  destruct (for_loop_total
    (fun l g => grid_cell cast_oor prices allSMA startIdx endIdx s l g)
    (fun l g' =>
       periods <$> results g'
       = (periods <$> results g) ++ ((fun l => (s, l)) <$> seqZ 1 (l - 1)) /\
       Forall (cell_result cast_oor prices startIdx endIdx) (results g'))
    1 (maxn + 1) g) as (g' & Hrun & Hper & Hok'); [lia | | |].
  - split; [|assumption]. rewrite (seqZ_nil 1 (1 - 1)) by lia. simpl. now rewrite app_nil_r.
  - intros l g1 Hl (Hper & Hok1).
    destruct (grid_cell_total allSMA s l g1) as (g2 & r & Hrun & Hres & Hr & Hcell);
      [apply Hfilled; lia | apply Hfilled; lia |].
    exists g2. split; [assumption|]. rewrite Hres. split.
    + rewrite fmap_app, Hper. simpl. rewrite Hr.
      replace (l + 1 - 1) with (l - 1 + 1) by lia.
      rewrite seqZ_snoc by lia. rewrite fmap_app, <- app_assoc. simpl.
      now replace (1 + (l - 1)) with l by lia.
    + apply Forall_app. split; [assumption | now constructor].
  - exists g'. split; [assumption|]. split; [|assumption].
    now replace (maxn + 1 - 1) with maxn in Hper by lia.
Qed.

Lemma grid_search_total :
  exists g,
    grid_search cast_oor maxn prices startIdx endIdx = Some g /\
    periods <$> results g = grid_cells maxn /\
    Forall (cell_result cast_oor prices startIdx endIdx) (results g).
Proof.
  unfold grid_search.
  destruct precompute_sma_total as (allSMA & -> & Hfilled). simpl.
  destruct (for_loop_total
    (fun s g =>
       for_loop (fun l g => grid_cell cast_oor prices allSMA startIdx endIdx s l g)
                1 (maxn + 1) g)
    (fun s g =>
       periods <$> results g
       = (s' ← seqZ 1 (s - 1); (fun l => (s', l)) <$> seqZ 1 maxn) /\
       Forall (cell_result cast_oor prices startIdx endIdx) (results g))
    1 (maxn + 1) init_sweep) as (g & Hrun & Hper & Hok); [lia | | |].
  - split; [|constructor]. rewrite (seqZ_nil 1 (1 - 1)) by lia. reflexivity.
  - intros s g1 Hs (Hper & Hok1).
    destruct (inner_loop_total allSMA s g1 Hfilled) as (g2 & Hrun & Hper2 & Hok2);
      [lia | assumption |].
    exists g2. split; [assumption|]. split; [|assumption].
    rewrite Hper2, Hper.
    replace (s + 1 - 1) with (s - 1 + 1) by lia.
    rewrite seqZ_snoc by lia. rewrite bind_app. simpl. rewrite app_nil_r.
    now replace (1 + (s - 1)) with s by lia.
  - exists g. split; [assumption|]. split; [|assumption].
    now replace (maxn + 1 - 1) with maxn in Hper by lia.
Qed.
End GridFacts.

Lemma elem_of_grid_cells (maxn s l : Z) :
  (s, l) ∈ grid_cells maxn <-> 1 <= s <= maxn /\ 1 <= l <= maxn.
Proof.
  unfold grid_cells. rewrite list_elem_of_bind. split.
  - intros (s' & Hin & Hs'). apply list_elem_of_fmap in Hin as (l' & [= -> ->] & Hl').
    apply elem_of_seqZ in Hs', Hl'. lia.
  - intros [Hs Hl]. exists s. split; [|apply elem_of_seqZ; lia].
    apply list_elem_of_fmap. exists l. split; [reflexivity | apply elem_of_seqZ; lia].
Qed.

Lemma NoDup_grid_cells (maxn : Z) : NoDup (grid_cells maxn).
Proof.
  unfold grid_cells. apply NoDup_bind.
  - intros s1 s2 c _ _ H1 H2.
    apply list_elem_of_fmap in H1 as (l1 & -> & _).
    apply list_elem_of_fmap in H2 as (l2 & [= -> _] & _). reflexivity.
  - intros s _. apply NoDup_fmap; [|apply NoDup_seqZ].
    intros l1 l2 [= ->]. reflexivity.
  - apply NoDup_seqZ.
Qed.

Lemma length_grid_cells (maxn : Z) :
  length (grid_cells maxn) = (Z.to_nat maxn * Z.to_nat maxn)%nat.
Proof.
  unfold grid_cells.
  assert (H : forall ss : list Z,
    length (s ← ss; (fun l => (s, l)) <$> seqZ 1 maxn)
    = (length ss * Z.to_nat maxn)%nat).
  { induction ss as [|s ss IH]; [reflexivity|].
    rewrite bind_cons, length_app, IH, length_fmap, length_seqZ. simpl. lia. }
  now rewrite H, length_seqZ.
Qed.

(** C7: for every price series and range the sweep runs to its end and
    collects 256 x 256 = 65536 results, one for each ordered pair of
    periods [(s, l)] of [1..256] x [1..256], pairs with [s = l]
    included, each holding the outcome of the simulation for its pair. *)
Theorem bruteForceAndAppend_collects_full_grid
  (cast_oor : float -> Z) (prices : list float) (startIdx endIdx : Z) :
  exists g : sweep,
    bruteForceAndAppend cast_oor prices startIdx endIdx = Some g /\
    Z.of_nat (length (results g)) = 65536 /\
    periods <$> results g = grid_cells 256 /\
    NoDup (periods <$> results g) /\
    (forall s l : Z,
       (s, l) ∈ (periods <$> results g) <-> 1 <= s <= 256 /\ 1 <= l <= 256) /\
    Forall (cell_result cast_oor prices startIdx endIdx) (results g).
Proof.
  destruct (grid_search_total cast_oor MAXN prices startIdx endIdx)
    as (g & Hrun & Hper & Hok); [unfold MAXN; lia|].
  exists g. change MAXN with 256 in Hper.
  split; [assumption | split; [|split; [assumption | split; [|split]]]].
  - rewrite <- (length_fmap periods), Hper, length_grid_cells. reflexivity.
  - rewrite Hper. apply NoDup_grid_cells.
  - intros s l. rewrite Hper. apply elem_of_grid_cells.
  - assumption.
Qed.
(** ** The order of [double] *)

Lemma SFcompare_key (x y : spec_float) :
  x <> S754_nan -> y <> S754_nan ->
  match SFcompare x y with
  | Some Lt => key_lt (sf_key x) (sf_key y)
  | Some Eq => sf_key x = sf_key y
  | Some Gt => key_lt (sf_key y) (sf_key x)
  | None => False
  end.
Proof.
  intros Hx Hy.
  destruct x as [[]|[]| |[] mx ex], y as [[]|[]| |[] my ey];
    try congruence; simpl; try reflexivity; try lia;
    destruct (Z.compare_spec ex ey) as [-> | He | He]; simpl; try lia;
    change (Pos.compare_cont Eq mx my) with (Pos.compare mx my);
    destruct (Pos.compare_spec mx my) as [-> | Hm | Hm]; simpl;
    try reflexivity; lia.
Qed.

Lemma key_lt_irrefl (k : Z * Z * Z) : ~ key_lt k k.
Proof. destruct k as [[c e] m]. unfold key_lt. lia. Qed.

Lemma key_lt_trans (k1 k2 k3 : Z * Z * Z) :
  key_lt k1 k2 -> key_lt k2 k3 -> key_lt k1 k3.
Proof.
  destruct k1 as [[c1 e1] m1], k2 as [[c2 e2] m2], k3 as [[c3 e3] m3].
  unfold key_lt. lia.
Qed.

Lemma key_lt_total (k1 k2 : Z * Z * Z) : key_lt k1 k2 \/ k1 = k2 \/ key_lt k2 k1.
Proof.
  destruct k1 as [[c1 e1] m1], k2 as [[c2 e2] m2]. unfold key_lt.
  destruct (Z.lt_trichotomy c1 c2) as [?|[->|?]]; [lia | | lia].
  destruct (Z.lt_trichotomy e1 e2) as [?|[->|?]]; [lia | | lia].
  destruct (Z.lt_trichotomy m1 m2) as [?|[->|?]]; [lia | auto | lia].
Qed.

(** [x < y] and [x == y] on numbers, read on the keys. *)
Lemma ltb_key (x y : float) :
  is_nan x = false -> is_nan y = false ->
  ((x <? y)%float = true <-> key_lt (sf_key (Prim2SF x)) (sf_key (Prim2SF y))).
Proof.
  rewrite !is_nan_false, FloatAxioms.ltb_spec. intros Hx Hy. unfold SFltb.
  pose proof (SFcompare_key _ _ Hx Hy) as H.
  destruct (SFcompare (Prim2SF x) (Prim2SF y)) as [[]|]; try contradiction;
    split; try discriminate; try (intros _; assumption); try reflexivity.
  - intros Hlt. rewrite H in Hlt. now apply key_lt_irrefl in Hlt.
  - intros Hlt. destruct (key_lt_irrefl _ (key_lt_trans _ _ _ H Hlt)).
Qed.

Lemma eqb_key (x y : float) :
  is_nan x = false -> is_nan y = false ->
  ((x =? y)%float = true <-> sf_key (Prim2SF x) = sf_key (Prim2SF y)).
Proof.
  rewrite !is_nan_false, FloatAxioms.eqb_spec. intros Hx Hy. unfold SFeqb.
  pose proof (SFcompare_key _ _ Hx Hy) as H.
  destruct (SFcompare (Prim2SF x) (Prim2SF y)) as [[]|]; try contradiction;
    split; try discriminate; try (intros _; assumption); try reflexivity.
  - intros E. rewrite E in H. now apply key_lt_irrefl in H.
  - intros E. rewrite E in H. now apply key_lt_irrefl in H.
Qed.

(** A comparison with NaN is false. *)
Lemma ltb_nan (x y : float) :
  is_nan x = true \/ is_nan y = true -> (x <? y)%float = false.
Proof.
  rewrite !is_nan_spec, FloatAxioms.ltb_spec. unfold SFltb.
  intros [-> | ->]; [reflexivity | now destruct (Prim2SF x)].
Qed.

Lemma eqb_nan (x y : float) :
  is_nan x = true \/ is_nan y = true -> (x =? y)%float = false.
Proof.
  rewrite !is_nan_spec, FloatAxioms.eqb_spec. unfold SFeqb.
  intros [-> | ->]; [reflexivity | now destruct (Prim2SF x)].
Qed.
(** ** The comparator *)

Lemma is_nan_cases (x : float) : is_nan x = true \/ is_nan x = false.
Proof. destruct (is_nan x); auto. Qed.

(** The four keys, in the order the lambda tests them. *)
Lemma rank_before_keys (a b : BruteResult.t) :
  rank_before a b = true <->
  (BruteResult.finalCapital b <? BruteResult.finalCapital a)%float = true \/
  ((BruteResult.finalCapital a =? BruteResult.finalCapital b)%float = true /\
   tie_before a b).
Proof.
  unfold rank_before, tie_before.
  set (fa := BruteResult.finalCapital a). set (fb := BruteResult.finalCapital b).
  destruct (fa =? fb)%float eqn:E; simpl.
  - assert (Hlt : (fb <? fa)%float = false).
    { destruct (is_nan_cases fa) as [Ha | Ha];
        [rewrite eqb_nan in E by auto; discriminate|].
      destruct (is_nan_cases fb) as [Hb | Hb];
        [rewrite eqb_nan in E by auto; discriminate|].
      apply (eqb_key _ _ Ha Hb) in E.
      destruct (fb <? fa)%float eqn:L; [|reflexivity].
      apply (ltb_key _ _ Hb Ha) in L. rewrite E in L.
      now apply key_lt_irrefl in L. }
    rewrite Hlt.
    destruct (Z.eqb_spec (Z.abs (BruteResult.s a - BruteResult.l a))
                         (Z.abs (BruteResult.s b - BruteResult.l b))); simpl;
      [destruct (Z.eqb_spec (BruteResult.s a) (BruteResult.s b)); simpl|];
      rewrite Z.ltb_lt; intuition (try discriminate; lia).
  - intuition discriminate.
Qed.

Lemma rank_before_defined (a b : BruteResult.t) :
  rank_before a b = true -> capital_defined a /\ capital_defined b.
Proof.
  rewrite rank_before_keys. unfold capital_defined.
  destruct (is_nan_cases (BruteResult.finalCapital a)) as [Ha | Ha],
           (is_nan_cases (BruteResult.finalCapital b)) as [Hb | Hb]; auto;
    rewrite ltb_nan, eqb_nan by auto; intuition discriminate.
Qed.

(** The comparator on results whose capital is a number. *)
Lemma rank_before_numbers (a b : BruteResult.t) :
  capital_defined a -> capital_defined b ->
  (rank_before a b = true <->
   key_lt (sf_key (Prim2SF (BruteResult.finalCapital b)))
          (sf_key (Prim2SF (BruteResult.finalCapital a))) \/
   (sf_key (Prim2SF (BruteResult.finalCapital a))
    = sf_key (Prim2SF (BruteResult.finalCapital b)) /\ tie_before a b)).
Proof.
  intros Ha Hb. now rewrite rank_before_keys, (ltb_key _ _ Hb Ha), (eqb_key _ _ Ha Hb).
Qed.

Lemma tie_before_irrefl (a : BruteResult.t) : ~ tie_before a a.
Proof. unfold tie_before. lia. Qed.

Lemma tie_before_trans (a b c : BruteResult.t) :
  tie_before a b -> tie_before b c -> tie_before a c.
Proof. unfold tie_before. lia. Qed.

Lemma tie_before_total (a b : BruteResult.t) :
  periods a <> periods b -> tie_before a b \/ tie_before b a.
Proof.
  unfold tie_before, periods. intros Hne.
  destruct (Z.eq_dec (BruteResult.s a) (BruteResult.s b)) as [Es|];
    [destruct (Z.eq_dec (BruteResult.l a) (BruteResult.l b)) as [El|]|];
    [rewrite Es, El in Hne; congruence | lia | lia].
Qed.

Lemma rank_before_irrefl (a : BruteResult.t) : rank_before a a = false.
Proof.
  destruct (rank_before a a) eqn:E; [|reflexivity].
  destruct (rank_before_defined _ _ E) as [Ha _].
  apply (rank_before_numbers _ _ Ha Ha) in E as [E | [_ E]].
  - now apply key_lt_irrefl in E.
  - now apply tie_before_irrefl in E.
Qed.

Lemma rank_before_trans (a b c : BruteResult.t) :
  rank_before a b = true -> rank_before b c = true -> rank_before a c = true.
Proof.
  intros Hab Hbc.
  destruct (rank_before_defined _ _ Hab) as [Ha Hb].
  destruct (rank_before_defined _ _ Hbc) as [_ Hc].
  apply (rank_before_numbers _ _ Ha Hb) in Hab.
  apply (rank_before_numbers _ _ Hb Hc) in Hbc.
  apply (rank_before_numbers _ _ Ha Hc).
  destruct Hab as [Hab | [Eab Tab]], Hbc as [Hbc | [Ebc Tbc]].
  - left. eapply key_lt_trans; eassumption.
  - left. now rewrite <- Ebc.
  - left. now rewrite Eab.
  - right. split; [congruence | eapply tie_before_trans; eassumption].
Qed.

Lemma rank_before_asym (a b : BruteResult.t) :
  rank_before a b = true -> rank_before b a = false.
Proof.
  intros Hab. destruct (rank_before b a) eqn:Hba; [|reflexivity].
  pose proof (rank_before_trans _ _ _ Hab Hba) as Haa.
  now rewrite rank_before_irrefl in Haa.
Qed.

Lemma rank_before_total (a b : BruteResult.t) :
  capital_defined a -> capital_defined b -> periods a <> periods b ->
  rank_before a b = true \/ rank_before b a = true.
Proof.
  intros Ha Hb Hne.
  rewrite (rank_before_numbers _ _ Ha Hb), (rank_before_numbers _ _ Hb Ha).
  destruct (key_lt_total (sf_key (Prim2SF (BruteResult.finalCapital a)))
                         (sf_key (Prim2SF (BruteResult.finalCapital b))))
    as [H | [H | H]]; [auto | | auto].
  destruct (tie_before_total a b Hne); auto.
Qed.

(** ** Sorting with the comparator *)

Lemma ordered_by_cons {A} (before : A -> A -> bool) (x : A) (v : list A) :
  ordered_by before (x :: v) ->
  ordered_by before v /\ forall y, y ∈ v -> before y x = false.
Proof.
  intros H. split.
  - intros i j y z Hij Hy Hz. apply (H (S i) (S j) y z); [lia | assumption..].
  - intros y Hy. apply list_elem_of_lookup in Hy as [j Hj].
    apply (H O (S j) x y); [lia | reflexivity | assumption].
Qed.

(** On results that can all be compared, the output of the sort is a
    chain of the comparator. *)
Lemma ordered_by_chain (v : list BruteResult.t) :
  Forall capital_defined v -> NoDup (periods <$> v) ->
  ordered_by rank_before v ->
  StronglySorted (fun a b => rank_before a b = true) v.
Proof.
  induction v as [|x v IH]; intros Hdef Hnd Hord; [constructor|].
  apply Forall_cons in Hdef as [Hx Hdef].
  rewrite fmap_cons in Hnd. apply NoDup_cons in Hnd as [Hnotin Hnd].
  apply ordered_by_cons in Hord as [Hord Hhead].
  constructor; [now apply IH|].
  apply Forall_forall. intros y Hy.
  assert (Hyd : capital_defined y).
  { rewrite Forall_forall in Hdef. now apply Hdef. }
  destruct (rank_before_total x y Hx Hyd) as [H | H]; [| assumption |].
  - intros E. apply Hnotin. rewrite E. now apply list_elem_of_fmap_2.
  - rewrite (Hhead y Hy) in H. discriminate.
Qed.

Lemma sorts_to_unique (input1 input2 out1 out2 : list BruteResult.t) :
  Forall capital_defined input1 -> NoDup (periods <$> input1) ->
  input1 ≡ₚ input2 ->
  sorts_to rank_before input1 out1 -> sorts_to rank_before input2 out2 ->
  out1 = out2.
Proof.
  intros Hdef Hnd Hin [Hp1 Ho1] [Hp2 Ho2].
  apply (StronglySorted_unique_strong (fun a b => rank_before a b = true)).
  - intros x y _ _ Hxy Hyx. apply rank_before_asym in Hxy. congruence.
  - apply ordered_by_chain; [now rewrite <- Hp1 | now rewrite <- Hp1 | assumption].
  - apply ordered_by_chain;
      [now rewrite <- Hp2, <- Hin | now rewrite <- Hp2, <- Hin | assumption].
  - now rewrite <- Hp1, <- Hp2.
Qed.
(** A price series ending on a NaN: the cell (1, 2) buys at 12 and is
    liquidated at the NaN price, the cell (1, 3) never trades. *)
Example nan_capital_cells :
  let p := [10; 8; 12; nan]%float in
  (sma1 ← calcSMA p 1; sma2 ← calcSMA p 2;
   simulateWithCapitalRange cast_oor_x86 p sma1 sma2 0 3)
  = Some {| finalCapital := nan; tradeCount := 2 |} /\
  (sma1 ← calcSMA p 1; sma3 ← calcSMA p 3;
   simulateWithCapitalRange cast_oor_x86 p sma1 sma3 0 3)
  = Some {| finalCapital := 10000; tradeCount := 0 |}.
Proof. split; vm_compute; reflexivity. Qed.

(** C2 does not hold of a capital that is NaN: such a result is ranked
    neither before nor after a result with other periods; the two
    compare equal, and both are cells of the sweep of one price series. *)
Lemma rank_before_not_total_on_nan :
  let p := [10; 8; 12; nan]%float in
  let a := {| BruteResult.s := 1; BruteResult.l := 2;
              BruteResult.finalCapital := nan; BruteResult.trades := 2 |} in
  let b := {| BruteResult.s := 1; BruteResult.l := 3;
              BruteResult.finalCapital := 10000; BruteResult.trades := 0 |} in
  cell_result cast_oor_x86 p 0 3 a /\
  cell_result cast_oor_x86 p 0 3 b /\
  periods a <> periods b /\
  rank_before a b = false /\
  rank_before b a = false.
Proof.
  split; [|split; [|split; [|split]]].
  - exists [10; 8; 12; nan]%float, [nan; 9; 10; nan]%float,
      {| finalCapital := nan; tradeCount := 2 |}.
    repeat split; vm_compute; reflexivity.
  - exists [10; 8; 12; nan]%float, [nan; nan; 10; nan]%float,
      {| finalCapital := 10000; tradeCount := 0 |}.
    repeat split; vm_compute; reflexivity.
  - discriminate.
  - vm_compute. reflexivity.
  - vm_compute. reflexivity.
Qed.

(** C2, for capitals that are numbers: the comparator orders by four
    keys in priority: higher [finalCapital] first; on equal capital,
    larger [|s - l|] first; then smaller [s]; then smaller [l].  It is
    irreflexive, asymmetric and
    transitive on all results, and total on results with distinct
    [(s, l)] whose capital is not NaN: no two of them compare equal, and
    a collection of them with distinct [(s, l)] has only one sorted
    order, whatever the order it is given in. *)
Theorem rank_before_strict_total_order :
  (forall a b : BruteResult.t,
     rank_before a b = true <->
     (BruteResult.finalCapital b <? BruteResult.finalCapital a)%float = true \/
     ((BruteResult.finalCapital a =? BruteResult.finalCapital b)%float = true /\
      let da := Z.abs (BruteResult.s a - BruteResult.l a) in
      let db := Z.abs (BruteResult.s b - BruteResult.l b) in
      db < da \/
      (da = db /\
       (BruteResult.s a < BruteResult.s b \/
        (BruteResult.s a = BruteResult.s b /\
         BruteResult.l a < BruteResult.l b))))) /\
  (forall a : BruteResult.t, rank_before a a = false) /\
  (forall a b : BruteResult.t, rank_before a b = true -> rank_before b a = false) /\
  (forall a b c : BruteResult.t,
     rank_before a b = true -> rank_before b c = true -> rank_before a c = true) /\
  (forall a b : BruteResult.t,
     capital_defined a -> capital_defined b -> periods a <> periods b ->
     rank_before a b = true \/ rank_before b a = true) /\
  (forall input1 input2 out1 out2 : list BruteResult.t,
     Forall capital_defined input1 -> NoDup (periods <$> input1) ->
     input1 ≡ₚ input2 ->
     sorts_to rank_before input1 out1 -> sorts_to rank_before input2 out2 ->
     out1 = out2).
Proof.
  split; [exact rank_before_keys|].
  split; [exact rank_before_irrefl|].
  split; [exact rank_before_asym|].
  split; [exact rank_before_trans|].
  split; [exact rank_before_total | exact sorts_to_unique].
Qed.

Lemma rank_before_strict_total_order_witness :
  let a := {| BruteResult.s := 2; BruteResult.l := 9;
              BruteResult.finalCapital := 12000; BruteResult.trades := 4 |} in
  let b := {| BruteResult.s := 3; BruteResult.l := 5;
              BruteResult.finalCapital := 12000; BruteResult.trades := 2 |} in
  let c := {| BruteResult.s := 1; BruteResult.l := 1;
              BruteResult.finalCapital := 10000; BruteResult.trades := 0 |} in
  (capital_defined a /\ capital_defined b /\ periods a <> periods b) /\
  (rank_before a b = true /\ rank_before b c = true) /\
  (Forall capital_defined [c; b; a] /\ NoDup (periods <$> [c; b; a]) /\
   sorts_to rank_before [c; b; a] [a; b; c]) /\
  (rank_before a b = true \/ rank_before b a = true) /\
  rank_before a c = true /\
  (forall out : list BruteResult.t,
     sorts_to rank_before [b; c; a] out -> [a; b; c] = out).
Proof.
  intros a b c.
  assert (Hdef : Forall capital_defined [c; b; a]).
  { repeat constructor. }
  assert (Hnd : NoDup (periods <$> [c; b; a])).
  { apply (bool_decide_unpack _). vm_compute. exact I. }
  assert (Hsort : sorts_to rank_before [c; b; a] [a; b; c]).
  { split.
    - change [c; b; a] with (reverse [a; b; c]). apply reverse_Permutation.
    - intros [|[|[|i]]] [|[|[|j]]] x y Hij Hx Hy; try lia;
        simpl in Hx, Hy; try discriminate;
        injection Hx as <-; injection Hy as <-; vm_compute; reflexivity. }
  split; [repeat split; discriminate|].
  split; [split; vm_compute; reflexivity|].
  split; [auto|].
  destruct rank_before_strict_total_order as (_ & _ & _ & Htrans & Htotal & Huniq).
  split; [apply Htotal; [reflexivity | reflexivity | discriminate]|].
  split; [apply (Htrans a b c); vm_compute; reflexivity|].
  intros out Hout. apply (Huniq [c; b; a] [b; c; a]); try assumption.
  apply perm_swap.
Defined.
(** * Further properties *)

(** ** [calcSMA]: bounds, undefined prices, no look-ahead *)

Lemma add_nan_l (x z : float) : is_nan x = true -> is_nan (x + z) = true.
Proof.
  rewrite !is_nan_spec, FloatAxioms.add_spec. intros ->. reflexivity.
Qed.

Lemma sub_nan_l (x z : float) : is_nan x = true -> is_nan (x - z) = true.
Proof.
  rewrite !is_nan_spec, FloatAxioms.sub_spec. intros ->. reflexivity.
Qed.

Lemma sub_nan_r (x z : float) : is_nan z = true -> is_nan (x - z) = true.
Proof.
  rewrite !is_nan_spec, FloatAxioms.sub_spec. intros ->. unfold SF64sub.
  destruct (Prim2SF x); reflexivity.
Qed.

Lemma fold_add_nan_acc (l : list float) (acc : float) :
  is_nan acc = true -> is_nan (fold_left PrimFloat.add l acc) = true.
Proof.
  revert acc. induction l as [|y l IH]; intros acc H; simpl; [assumption|].
  apply IH. now apply add_nan_l.
Qed.

Lemma fold_add_nan_elem (l : list float) (acc x : float) :
  x ∈ l -> is_nan x = true -> is_nan (fold_left PrimFloat.add l acc) = true.
Proof.
  revert acc. induction l as [|y l IH]; intros acc Hin Hx; simpl.
  - now apply not_elem_of_nil in Hin.
  - apply elem_of_cons in Hin as [<- | Hin].
    + apply fold_add_nan_acc. now apply add_nan_r.
    + now apply IH.
Qed.

Lemma running_sum_nan (p : list float) (n k j : nat) (x : float) :
  p !! j = Some x -> is_nan x = true -> (j < n + k)%nat ->
  is_nan (running_sum p n k) = true.
Proof.
  intros Hj Hx. induction k as [|k IH]; intros Hlt.
  - simpl. apply (fold_add_nan_elem _ _ x); [|assumption].
    apply list_elem_of_lookup. exists j. rewrite lookup_take_lt by lia. assumption.
  - simpl. destruct (decide (j < n + k)%nat) as [Hlt' | Hge].
    + apply add_nan_l. now apply IH.
    + replace (n + k)%nat with j by lia.
      rewrite (list_lookup_total_correct _ _ _ Hj).
      apply add_nan_r. now apply sub_nan_l.
Qed.

Lemma sma_spec_nan (p : list float) (n i j : nat) (x : float) :
  (1 <= n)%nat -> p !! j = Some x -> is_nan x = true -> (j <= i)%nat ->
  is_nan (sma_spec p n i) = true.
Proof.
  intros Hn Hj Hx Hji. unfold sma_spec.
  destruct (Nat.ltb_spec i (n - 1)); [reflexivity|].
  apply div_nan_l. apply (running_sum_nan p n _ j x); [assumption.. | lia].
Qed.

Lemma running_sum_app (p q : list float) (n k : nat) :
  (n + k <= length p)%nat -> running_sum (p ++ q) n k = running_sum p n k.
Proof.
  induction k as [|k IH]; intros Hle; simpl.
  - now rewrite take_app_le by lia.
  - rewrite IH by lia. now rewrite !lookup_total_app_l by lia.
Qed.

Lemma sma_spec_app (p q : list float) (n i : nat) :
  (1 <= n)%nat -> (i < length p)%nat ->
  sma_spec (p ++ q) n i = sma_spec p n i.
Proof.
  intros Hn Hi. unfold sma_spec.
  destruct (Nat.ltb_spec i (n - 1)); [reflexivity|].
  now rewrite running_sum_app by lia.
Qed.

(** The entries of any average, in one statement. *)
Lemma calcSMA_entries (p : list float) (n : Z) :
  exists sma,
    calcSMA p n = Some sma /\ length sma = length p /\
    forall i, (i < length p)%nat ->
      sma !! i = Some (if (n <? 1) || (Z.of_nat (length p) <? n) then nan
                       else sma_spec p (Z.to_nat n) i).
Proof.
  destruct (Z.ltb_spec n 1) as [Hlo | Hlo]; simpl;
    [| destruct (Z.ltb_spec (Z.of_nat (length p)) n) as [Hhi | Hhi]].
  1, 2: exists (replicate (length p) nan);
        split; [apply calcSMA_degenerate; lia|];
        split; [apply length_replicate|];
        intros i Hi; now apply lookup_replicate_2.
  now apply calcSMA_refines.
Qed.

(** X1: for every price series and every window, in range or not,
    [calcSMA] stays within the bounds of its vectors and returns a series
    as long as the prices, whose entries before index [n - 1] are NaN. *)
Theorem calcSMA_in_bounds_with_warmup (p : list float) (n : Z) :
  exists sma,
    calcSMA p n = Some sma /\
    length sma = length p /\
    forall i x, Z.of_nat i < n - 1 -> sma !! i = Some x -> x = nan.
Proof.
  destruct (calcSMA_entries p n) as (sma & Hrun & Hlen & Hsma).
  exists sma. split; [assumption | split; [assumption|]].
  intros i x Hi Hx.
  assert (Hlt : (i < length p)%nat).
  { rewrite <- Hlen. now apply lookup_lt_Some in Hx. }
  rewrite (Hsma i Hlt) in Hx. injection Hx as <-.
  destruct ((n <? 1) || (Z.of_nat (length p) <? n)); [reflexivity|].
  apply sma_spec_warmup. lia.
Qed.

(** X2: an undefined price is never forgotten: when [p[j]] is NaN, every
    entry of the average from index [j] on is NaN, also after the price
    has left the window, since the running sum stays NaN. *)
Theorem calcSMA_nan_price_poisons
  (p sma : list float) (n : Z) (j i : nat) (x y : float) :
  calcSMA p n = Some sma ->
  p !! j = Some x -> is_nan x = true ->
  (j <= i)%nat -> sma !! i = Some y ->
  is_nan y = true.
Proof.
  intros Hrun Hj Hx Hji Hy.
  destruct (calcSMA_entries p n) as (sma' & Hrun' & Hlen & Hsma).
  rewrite Hrun in Hrun'. injection Hrun' as <-.
  assert (Hlt : (i < length p)%nat).
  { rewrite <- Hlen. now apply lookup_lt_Some in Hy. }
  rewrite (Hsma i Hlt) in Hy. injection Hy as <-.
  destruct (Z.ltb_spec n 1); simpl; [reflexivity|].
  destruct (Z.ltb_spec (Z.of_nat (length p)) n); [reflexivity|].
  apply (sma_spec_nan p _ i j x); [lia | assumption..].
Qed.

Lemma calcSMA_nan_price_poisons_witness :
  let p := [10; nan; 12; 6; 7]%float in
  (calcSMA p 2 = Some [nan; nan; nan; nan; nan]%float /\
   p !! 1%nat = Some nan /\ is_nan nan = true /\ (1 <= 4)%nat /\
   [nan; nan; nan; nan; nan]%float !! 4%nat = Some nan) /\
  is_nan nan = true.
Proof.
  split; [repeat split; try lia; vm_compute; reflexivity|].
  apply (calcSMA_nan_price_poisons [10; nan; 12; 6; 7]%float
           [nan; nan; nan; nan; nan]%float 2 1 4 nan nan);
    try (vm_compute; reflexivity).
  lia.
Defined.

(** X3: no look-ahead: the entry of the average at an index depends on
    the prices up to that index only; prices appended to the series
    leave the entries at the earlier indices as they were. *)
Theorem calcSMA_no_look_ahead (p q : list float) (n : Z) :
  exists sma sma',
    calcSMA p n = Some sma /\
    calcSMA (p ++ q) n = Some sma' /\
    forall i, (i < length p)%nat -> sma' !! i = sma !! i.
Proof.
  destruct (calcSMA_entries p n) as (sma & Hrun & Hlen & Hsma).
  destruct (calcSMA_entries (p ++ q) n) as (sma' & Hrun' & Hlen' & Hsma').
  exists sma, sma'. split; [assumption | split; [assumption|]].
  intros i Hi. rewrite (Hsma i Hi), Hsma' by (rewrite length_app; lia).
  f_equal. rewrite length_app.
  destruct (Z.ltb_spec n 1); simpl; [reflexivity|].
  destruct (Z.ltb_spec (Z.of_nat (length p + length q)) n),
           (Z.ltb_spec (Z.of_nat (length p)) n); try reflexivity; try lia.
  - rewrite sma_spec_warmup by lia. reflexivity.
  - apply sma_spec_app; lia.
Qed.
(** ** [simulateWithCapitalRange]: days without a signal, the count *)

Lemma iterate_partial_at {State : Type} (body : Z -> State -> option State)
      (I : Z -> State -> Prop) (k : nat) :
  forall (i : Z) (s s' : State),
    I i s ->
    (forall j t t', i <= j < i + Z.of_nat k -> I j t -> body j t = Some t' ->
                    I (j + 1) t') ->
    iterate body k i s = Some s' -> I (i + Z.of_nat k) s'.
Proof.
  induction k as [|k IH]; intros i s s' Hs Hstep; simpl.
  - intros [= <-]. now replace (i + Z.of_nat 0) with i by lia.
  - destruct (body i s) as [t|] eqn:Ht; simpl; [|discriminate].
    intros Hrun.
    replace (i + Z.of_nat (S k)) with (i + 1 + Z.of_nat k) by lia.
    apply (IH (i + 1) t s'); [| | assumption].
    + apply (Hstep i s t); [lia | assumption | assumption].
    + intros j u u' Hj. apply Hstep. lia.
Qed.

Lemma for_loop_partial_at {State : Type} (body : Z -> State -> option State)
      (I : Z -> State -> Prop) (lo hi : Z) (s s' : State) :
  lo <= hi -> I lo s ->
  (forall j t t', lo <= j < hi -> I j t -> body j t = Some t' -> I (j + 1) t') ->
  for_loop body lo hi s = Some s' -> I hi s'.
Proof.
  intros Hle H0 Hstep Hrun. unfold for_loop in Hrun.
  replace hi with (lo + Z.of_nat (Z.to_nat (hi - lo))) by lia.
  apply (iterate_partial_at body I _ lo s s'); [assumption | | assumption].
  intros j t t' Hj. apply Hstep. lia.
Qed.

(** A day on which the position is flat and the averages give no buy
    signal leaves everything as it was. *)
Lemma step_flat_no_signal
  (cast_oor : float -> Z) (prices smaS smaL : list float) (startIdx i : Z)
  (st : state) (j : list trade) (sp lp sn ln : float) :
  vget smaS (i - 1) = Some sp -> vget smaL (i - 1) = Some lp ->
  vget smaS i = Some sn -> vget smaL i = Some ln ->
  shares st = 0 ->
  is_nan (sp - lp) || is_nan (sn - ln) = true \/
  (sp - lp <? 0)%float && (0 <? sn - ln)%float = false ->
  step cast_oor prices smaS smaL startIdx i (st, j) = Some (st, j).
Proof.
  intros Hsp Hlp Hsn Hln H0 Hno. unfold step.
  rewrite Hsp, Hlp, Hsn, Hln. simpl.
  destruct (is_nan (sp - lp) || is_nan (sn - ln)) eqn:Hnan; [reflexivity|].
  destruct Hno as [Hno | Hno]; [discriminate|].
  rewrite <- !andb_assoc, Hno, !andb_false_r, H0. reflexivity.
Qed.

(** A simulation over averages that never give a buy signal. *)
Lemma simulate_without_signal
  (cast_oor : float -> Z) (prices smaS smaL : list float) (startIdx endIdx : Z) :
  (length prices <= length smaS)%nat ->
  (length prices <= length smaL)%nat ->
  (forall i sp lp sn ln,
     1 <= i < Z.of_nat (length prices) ->
     vget smaS (i - 1) = Some sp -> vget smaL (i - 1) = Some lp ->
     vget smaS i = Some sn -> vget smaL i = Some ln ->
     is_nan (sp - lp) || is_nan (sn - ln) = true \/
     (sp - lp <? 0)%float && (0 <? sn - ln)%float = false) ->
  simulate_journal cast_oor prices smaS smaL startIdx endIdx = Some no_trade.
Proof.
  intros HS HL Hno. unfold simulate_journal.
  destruct (Z.eqb_spec (Z.of_nat (length prices)) 0) as [|HN]; [reflexivity|].
  assert (Hne : prices <> []) by (intros E; rewrite E in HN; simpl in HN; lia).
  pose proof (clamp_end_lt prices endIdx Hne) as He.
  pose proof (clamp_start_nonneg startIdx) as Hs.
  destruct (Z.leb_spec (clamp_end prices endIdx) (clamp_start startIdx));
    [reflexivity|].
  set (s1 := if clamp_start startIdx <? 1 then 1 else clamp_start startIdx).
  assert (Hs1 : 1 <= s1 <= clamp_end prices endIdx).
  { unfold s1. destruct (Z.ltb_spec (clamp_start startIdx) 1); lia. }
  destruct (for_loop_total (step cast_oor prices smaS smaL s1)
              (fun _ sj => sj = (init_state, [])) s1
              (clamp_end prices endIdx + 1) (init_state, []))
    as (sj & Hloop & ->); [lia | reflexivity | |].
  - intros i sj Hi ->. eexists. split; [|reflexivity].
    destruct (vget_in_range smaS (i - 1)) as [sp Hsp]; [lia|].
    destruct (vget_in_range smaL (i - 1)) as [lp Hlp]; [lia|].
    destruct (vget_in_range smaS i) as [sn Hsn]; [lia|].
    destruct (vget_in_range smaL i) as [ln Hln]; [lia|].
    apply (step_flat_no_signal _ _ _ _ _ _ _ _ sp lp sn ln); try assumption.
    + reflexivity.
    + apply (Hno i); [lia | assumption..].
  - unfold trading_loop. rewrite Hloop. reflexivity.
Qed.

Lemma sub_self_not_negative (x : float) : (x - x <? 0)%float = false.
Proof.
  rewrite FloatAxioms.ltb_spec. change (Prim2SF 0) with (S754_zero false).
  destruct (sub_diag x) as [-> | ->]; reflexivity.
Qed.

Lemma simulate_same_average
  (cast_oor : float -> Z) (prices sma : list float) (startIdx endIdx : Z) :
  (length prices <= length sma)%nat ->
  simulate_journal cast_oor prices sma sma startIdx endIdx = Some no_trade.
Proof.
  intros Hlen. apply simulate_without_signal; [assumption | assumption |].
  intros i sp lp sn ln _ Hsp Hlp _ _. right.
  rewrite Hsp in Hlp. injection Hlp as <-.
  now rewrite sub_self_not_negative.
Qed.

Lemma simulate_undefined_average
  (cast_oor : float -> Z) (prices smaS smaL : list float) (startIdx endIdx : Z) :
  (length prices <= length smaS)%nat ->
  (length prices <= length smaL)%nat ->
  (forall i x, smaS !! i = Some x -> is_nan x = true) \/
  (forall i x, smaL !! i = Some x -> is_nan x = true) ->
  simulate_journal cast_oor prices smaS smaL startIdx endIdx = Some no_trade.
Proof.
  intros HS HL Hnan. apply simulate_without_signal; [assumption | assumption |].
  intros i sp lp sn ln _ Hsp Hlp _ _. left.
  apply vget_Some in Hsp as [_ Hsp]. apply vget_Some in Hlp as [_ Hlp].
  destruct Hnan as [Hnan | Hnan].
  - now rewrite (sub_nan_l _ _ (Hnan _ _ Hsp)).
  - now rewrite (sub_nan_r _ _ (Hnan _ _ Hlp)).
Qed.

(** X4: with one and the same average in the place of the short and of
    the long one (the diagonal [s = l] of the grid), the simulator never
    trades, for every price series and range: it returns [(10000, 0)]. *)
Theorem same_average_never_trades
  (cast_oor : float -> Z) (prices sma : list float) (startIdx endIdx : Z) :
  (length prices <= length sma)%nat ->
  simulate_journal cast_oor prices sma sma startIdx endIdx
  = Some ({| finalCapital := INITIAL; tradeCount := 0 |}, []) /\
  simulateWithCapitalRange cast_oor prices sma sma startIdx endIdx
  = Some {| finalCapital := 10000; tradeCount := 0 |}.
Proof.
  intros Hlen.
  assert (Hj : simulate_journal cast_oor prices sma sma startIdx endIdx
               = Some no_trade).
  { now apply simulate_same_average. }
  unfold simulateWithCapitalRange. rewrite Hj. split; reflexivity.
Qed.

Lemma same_average_never_trades_witness :
  let p := [10; 8; 12; 6; 7]%float in
  (length p <= length p)%nat /\
  simulate_journal cast_oor_x86 p p p 0 4
  = Some ({| finalCapital := INITIAL; tradeCount := 0 |}, []) /\
  simulateWithCapitalRange cast_oor_x86 p p p 0 4
  = Some {| finalCapital := 10000; tradeCount := 0 |}.
Proof.
  split; [simpl; lia|].
  apply (same_average_never_trades cast_oor_x86 [10; 8; 12; 6; 7]%float
           [10; 8; 12; 6; 7]%float 0 4). simpl. lia.
Defined.

(** X5: an average that is undefined throughout, as [calcSMA] returns
    for a window longer than the series, gives no signal on any day:
    whichever of the two averages it is, the simulator returns
    [(10000, 0)]. *)
Theorem undefined_average_never_trades
  (cast_oor : float -> Z) (prices smaS smaL : list float) (startIdx endIdx : Z) :
  (length prices <= length smaS)%nat ->
  (length prices <= length smaL)%nat ->
  (forall i x, smaS !! i = Some x -> is_nan x = true) \/
  (forall i x, smaL !! i = Some x -> is_nan x = true) ->
  simulate_journal cast_oor prices smaS smaL startIdx endIdx
  = Some ({| finalCapital := INITIAL; tradeCount := 0 |}, []) /\
  simulateWithCapitalRange cast_oor prices smaS smaL startIdx endIdx
  = Some {| finalCapital := 10000; tradeCount := 0 |}.
Proof.
  intros HS HL Hnan.
  assert (Hj : simulate_journal cast_oor prices smaS smaL startIdx endIdx
               = Some no_trade).
  { now apply simulate_undefined_average. }
  unfold simulateWithCapitalRange. rewrite Hj. split; reflexivity.
Qed.

Lemma undefined_average_never_trades_witness :
  let p := [10; 8; 12; 6; 7]%float in
  let u := [nan; nan; nan; nan; nan]%float in
  ((length p <= length p)%nat /\ (length p <= length u)%nat /\
   ((forall i x, p !! i = Some x -> is_nan x = true) \/
    (forall i x, u !! i = Some x -> is_nan x = true))) /\
  calcSMA p 6 = Some u /\
  simulate_journal cast_oor_x86 p p u 0 4
  = Some ({| finalCapital := INITIAL; tradeCount := 0 |}, []) /\
  simulateWithCapitalRange cast_oor_x86 p p u 0 4
  = Some {| finalCapital := 10000; tradeCount := 0 |}.
Proof.
  assert (Hu : forall i x, [nan; nan; nan; nan; nan]%float !! i = Some x ->
                           is_nan x = true).
  { intros [|[|[|[|[|i]]]]] x [= <-]; reflexivity. }
  split; [split; [simpl; lia | split; [simpl; lia | right; exact Hu]]|].
  split; [vm_compute; reflexivity|].
  apply (undefined_average_never_trades cast_oor_x86 [10; 8; 12; 6; 7]%float
           [10; 8; 12; 6; 7]%float [nan; nan; nan; nan; nan]%float 0 4);
    [simpl; lia | simpl; lia | right; exact Hu].
Defined.

Lemma step_counts_at_most_one
  (cast_oor : float -> Z) (prices smaS smaL : list float) (startIdx i : Z)
  (st st' : state) (j j' : list trade) :
  step cast_oor prices smaS smaL startIdx i (st, j) = Some (st', j') ->
  trades st <= trades st' <= trades st + 1 /\
  (i = startIdx -> shares st = 0 -> st' = st).
Proof.
  unfold step.
  destruct (vget smaS (i - 1)) as [sp|]; [simpl | discriminate].
  destruct (vget smaL (i - 1)) as [lp|]; [simpl | discriminate].
  destruct (vget smaS i) as [sn|]; [simpl | discriminate].
  destruct (vget smaL i) as [ln|]; [simpl | discriminate].
  destruct (is_nan (sp - lp) || is_nan (sn - ln));
    [intros [= <- <-]; split; [lia | reflexivity]|].
  destruct (Z.eqb_spec i startIdx) as [Hi | Hi]; simpl.
  - destruct (Z.ltb_spec 0 (shares st)) as [Hpos | Hle]; simpl.
    + destruct ((0 <? sp - lp)%float && (sn - ln <? 0)%float).
      * destruct (vget prices i) as [pi|]; [simpl | discriminate].
        intros [= <- <-]. simpl. split; [lia | intros _ H0; lia].
      * intros [= <- <-]. split; [lia | reflexivity].
    + intros [= <- <-]. split; [lia | reflexivity].
  - destruct ((shares st =? 0) && (sp - lp <? 0)%float && (0 <? sn - ln)%float).
    + destruct (vget prices i) as [pi|]; [simpl | discriminate].
      destruct (0 <? int_of_double cast_oor (cash st / pi));
        intros [= <- <-]; simpl; (split; [lia | intros; lia]).
    + destruct ((0 <? shares st) && (0 <? sp - lp)%float && (sn - ln <? 0)%float).
      * destruct (vget prices i) as [pi|]; [simpl | discriminate].
        intros [= <- <-]. simpl. split; [lia | intros; lia].
      * intros [= <- <-]. split; [lia | intros; lia].
Qed.

(** X6: the count of trades is bounded by the days of the range: the
    first day never trades, each later day trades at most once and the
    liquidation adds one, so the count is at most the number of indices
    of the clamped range, hence below the number of prices. *)
Theorem trade_count_bounded_by_days
  (cast_oor : float -> Z) (prices smaS smaL : list float) (startIdx endIdx : Z)
  (r : SimResult) :
  simulateWithCapitalRange cast_oor prices smaS smaL startIdx endIdx = Some r ->
  0 <= tradeCount r /\
  tradeCount r
  <= Z.max 0 (clamp_end prices endIdx - Z.max 1 (clamp_start startIdx) + 1) /\
  tradeCount r <= Z.max 0 (Z.of_nat (length prices) - 1).
Proof.
  unfold simulateWithCapitalRange. intros H.
  destruct (simulate_journal cast_oor prices smaS smaL startIdx endIdx)
    as [[r' j]|] eqn:Hj; [|discriminate].
  injection H as ->. unfold simulate_journal in Hj.
  destruct (Z.eqb_spec (Z.of_nat (length prices)) 0) as [|HN];
    [injection Hj as <- <-; simpl; lia|].
  assert (Hne : prices <> []) by (intros E; rewrite E in HN; simpl in HN; lia).
  pose proof (clamp_end_lt prices endIdx Hne) as He.
  pose proof (clamp_start_nonneg startIdx) as Hs.
  destruct (Z.leb_spec (clamp_end prices endIdx) (clamp_start startIdx));
    [injection Hj as <- <-; simpl; lia|].
  set (s1 := if clamp_start startIdx <? 1 then 1 else clamp_start startIdx) in Hj.
  assert (Hs1 : s1 = Z.max 1 (clamp_start startIdx)).
  { unfold s1. destruct (Z.ltb_spec (clamp_start startIdx) 1); lia. }
  destruct (trading_loop _ _ _ _ _ _) as [[st' j']|] eqn:Hloop;
    [simpl in Hj | discriminate].
  assert (Hinv : 0 <= trades st' <= clamp_end prices endIdx - s1).
  { unfold trading_loop in Hloop.
    apply (for_loop_partial_at (step cast_oor prices smaS smaL s1)
             (fun i sj => (i = s1 /\ shares sj.1 = 0 /\ trades sj.1 = 0) \/
                          (s1 < i /\ 0 <= trades sj.1 <= i - s1 - 1))) in Hloop.
    - simpl in Hloop. lia.
    - lia.
    - left. repeat split.
    - intros i [st1 j1] [st2 j2] Hi Hprev Hstep. simpl in *.
      apply step_counts_at_most_one in Hstep as [Hcount Hfirst].
      right. destruct Hprev as [(-> & H0 & Ht) | (Hlt & Ht)].
      + rewrite (Hfirst eq_refl H0). lia.
      + lia. }
  unfold liquidate in Hj.
  destruct (0 <? shares st').
  - destruct (vget prices (clamp_end prices endIdx)) as [pe|];
      [simpl in Hj | discriminate].
    injection Hj as <- <-. simpl. lia.
  - simpl in Hj. injection Hj as <- <-. simpl. lia.
Qed.

Lemma trade_count_bounded_by_days_witness :
  let p := [10; 8; 12; 6; 7]%float in
  let smaL := [nan; 9; 10; 9; 6.5]%float in
  let r := {| finalCapital := 5002; tradeCount := 4 |} in
  simulateWithCapitalRange cast_oor_x86 p p smaL 0 4 = Some r /\
  0 <= tradeCount r /\
  tradeCount r <= Z.max 0 (clamp_end p 4 - Z.max 1 (clamp_start 0) + 1) /\
  tradeCount r <= Z.max 0 (Z.of_nat (length p) - 1).
Proof.
  split; [vm_compute; reflexivity|].
  apply (trade_count_bounded_by_days cast_oor_x86 [10; 8; 12; 6; 7]%float
           [10; 8; 12; 6; 7]%float [nan; 9; 10; 9; 6.5]%float 0 4
           {| finalCapital := 5002; tradeCount := 4 |}).
  vm_compute. reflexivity.
Defined.
(** ** The sweep: the best pair, the cells that cannot trade *)

Lemma ltb_defined (x y : float) :
  (x <? y)%float = true -> is_nan x = false /\ is_nan y = false.
Proof.
  intros H. destruct (is_nan_cases x) as [Hx | Hx], (is_nan_cases y) as [Hy | Hy];
    auto; rewrite ltb_nan in H by auto; discriminate.
Qed.

Lemma ltb_irrefl (x : float) : (x <? x)%float = false.
Proof.
  destruct (x <? x)%float eqn:E; [|reflexivity].
  destruct (ltb_defined _ _ E) as [Hx _].
  apply (ltb_key _ _ Hx Hx) in E. now apply key_lt_irrefl in E.
Qed.

(** Raising the best capital keeps it above what it was above. *)
Lemma not_ltb_raise (b b' f : float) :
  (b <? f)%float = false -> (b <? b')%float = true -> (b' <? f)%float = false.
Proof.
  intros Hbf Hbb. destruct (b' <? f)%float eqn:E; [|reflexivity].
  destruct (ltb_defined _ _ Hbb) as [Hb Hb'].
  destruct (ltb_defined _ _ E) as [_ Hf].
  apply (ltb_key _ _ Hb Hb') in Hbb. apply (ltb_key _ _ Hb' Hf) in E.
  pose proof (key_lt_trans _ _ _ Hbb E) as Hlt.
  apply (ltb_key _ _ Hb Hf) in Hlt. congruence.
Qed.

Lemma below_new_best (b n f : float) :
  (b <? f)%float = false -> (b <? n)%float = true -> is_nan f = false ->
  (f <? n)%float = true.
Proof.
  intros Hbf Hbn Hf. destruct (ltb_defined _ _ Hbn) as [Hb Hn].
  apply (ltb_key _ _ Hf Hn). apply (ltb_key _ _ Hb Hn) in Hbn.
  destruct (key_lt_total (sf_key (Prim2SF b)) (sf_key (Prim2SF f)))
    as [H | [H | H]].
  - apply (ltb_key _ _ Hb Hf) in H. congruence.
  - now rewrite <- H.
  - eapply key_lt_trans; eassumption.
Qed.

Lemma best_tracked_init : best_tracked init_sweep.
Proof.
  split; [reflexivity | split].
  - intros r Hr. now apply not_elem_of_nil in Hr.
  - left. repeat split.
Qed.

Lemma grid_cell_best_tracked
  (cast_oor : float -> Z) (prices : list float) (allSMA : list (list float))
  (startIdx endIdx s l : Z) (g g' : sweep) :
  best_tracked g ->
  grid_cell cast_oor prices allSMA startIdx endIdx s l g = Some g' ->
  best_tracked g'.
Proof.
  intros (Hnan & Hmax & Hfirst). unfold grid_cell.
  destruct (vget allSMA s) as [smaS|]; [simpl | discriminate].
  destruct (vget allSMA l) as [smaL|]; [simpl | discriminate].
  destruct (simulateWithCapitalRange _ _ _ _ _ _) as [sr|]; [simpl | discriminate].
  destruct (bestCapital g <? finalCapital sr)%float eqn:Hlt; intros [= <-];
    unfold best_tracked; simpl.
  - destruct (ltb_defined _ _ Hlt) as [_ Hsr].
    split; [assumption | split].
    + intros r Hr. apply elem_of_app in Hr as [Hr | Hr].
      * apply (not_ltb_raise (bestCapital g)); [now apply Hmax | assumption].
      * apply list_elem_of_singleton in Hr as ->. simpl. apply ltb_irrefl.
    + right. eexists (results g), _, []. split; [reflexivity|].
      split; [reflexivity | split; [reflexivity|]].
      intros r' Hr'. destruct (is_nan_cases (BruteResult.finalCapital r'));
        [now left | right].
      apply (below_new_best (bestCapital g)); [now apply Hmax | assumption..].
  - split; [assumption | split].
    + intros r Hr. apply elem_of_app in Hr as [Hr | Hr]; [now apply Hmax|].
      apply list_elem_of_singleton in Hr as ->. assumption.
    + destruct Hfirst as [Hnone | (l1 & r & l2 & Hres & Hrest)]; [now left|].
      right. eexists l1, r, (l2 ++ [_]). split; [|assumption].
      rewrite Hres, <- app_assoc. reflexivity.
Qed.

Lemma grid_search_best_tracked
  (cast_oor : float -> Z) (maxn : Z) (prices : list float) (startIdx endIdx : Z)
  (g : sweep) :
  grid_search cast_oor maxn prices startIdx endIdx = Some g -> best_tracked g.
Proof.
  unfold grid_search.
  destruct (precompute_sma maxn prices) as [allSMA|]; [simpl | discriminate].
  apply for_loop_partial; [apply best_tracked_init|].
  intros s g1 g2 _ Hg1. apply for_loop_partial; [assumption|].
  intros l g3 g4 _. apply grid_cell_best_tracked.
Qed.

(** A cell on the diagonal, or with a period the series is too short
    for, holds the initial capital and no trade. *)
Lemma cell_result_cannot_trade
  (cast_oor : float -> Z) (prices : list float) (startIdx endIdx : Z)
  (r : BruteResult.t) :
  cell_result cast_oor prices startIdx endIdx r ->
  BruteResult.s r = BruteResult.l r \/
  Z.of_nat (length prices) < BruteResult.s r \/
  Z.of_nat (length prices) < BruteResult.l r ->
  BruteResult.finalCapital r = INITIAL /\ BruteResult.trades r = 0.
Proof.
  intros (smaS & smaL & sr & HS & HL & Hsim & Hfc & Htr) Hcase.
  destruct (calcSMA_total prices (BruteResult.s r)) as (smaS' & HS' & HlenS).
  destruct (calcSMA_total prices (BruteResult.l r)) as (smaL' & HL' & HlenL).
  rewrite HS in HS'. injection HS' as <-.
  rewrite HL in HL'. injection HL' as <-.
  assert (Hj : simulate_journal cast_oor prices smaS smaL startIdx endIdx
               = Some no_trade).
  { destruct Hcase as [Heq | [Hbig | Hbig]].
    - rewrite Heq, HL in HS. injection HS as <-.
      apply simulate_same_average. lia.
    - apply simulate_undefined_average; [lia | lia | left].
      rewrite calcSMA_degenerate in HS by lia. injection HS as <-.
      intros i x Hx. now apply lookup_replicate in Hx as [-> _].
    - apply simulate_undefined_average; [lia | lia | right].
      rewrite calcSMA_degenerate in HL by lia. injection HL as <-.
      intros i x Hx. now apply lookup_replicate in Hx as [-> _]. }
  unfold simulateWithCapitalRange in Hsim. rewrite Hj in Hsim.
  injection Hsim as <-. rewrite Hfc, Htr. split; reflexivity.
Qed.

(** X7: in the results of the sweep, every cell of the diagonal [s = l]
    and every cell with a period longer than the price series holds the
    initial capital 10000 and no trade, for all prices and ranges. *)
Theorem sweep_cells_that_cannot_trade
  (cast_oor : float -> Z) (prices : list float) (startIdx endIdx : Z) :
  exists g : sweep,
    bruteForceAndAppend cast_oor prices startIdx endIdx = Some g /\
    forall r : BruteResult.t,
      r ∈ results g ->
      BruteResult.s r = BruteResult.l r \/
      Z.of_nat (length prices) < BruteResult.s r \/
      Z.of_nat (length prices) < BruteResult.l r ->
      BruteResult.finalCapital r = 10000%float /\ BruteResult.trades r = 0.
Proof.
  destruct (grid_search_total cast_oor MAXN prices startIdx endIdx)
    as (g & Hrun & _ & Hok); [unfold MAXN; lia|].
  exists g. split; [assumption|]. intros r Hr.
  rewrite Forall_forall in Hok.
  apply (cell_result_cannot_trade cast_oor prices startIdx endIdx). now apply Hok.
Qed.

(** X8: the best pair the sweep reports.  [bestCapital] is a number, it
    is not below the initial capital (the cells of the diagonal see to
    that), no result has a greater capital, and [(bestS, bestL)] are the
    periods of the first result, in the order of the sweep, that holds
    it: every earlier result has a smaller capital or NaN. *)
Theorem sweep_best_is_first_maximum
  (cast_oor : float -> Z) (prices : list float) (startIdx endIdx : Z) :
  exists g : sweep,
    bruteForceAndAppend cast_oor prices startIdx endIdx = Some g /\
    is_nan (bestCapital g) = false /\
    (bestCapital g <? 10000)%float = false /\
    (forall r, r ∈ results g ->
       (bestCapital g <? BruteResult.finalCapital r)%float = false) /\
    exists l1 r l2,
      results g = l1 ++ r :: l2 /\
      periods r = (bestS g, bestL g) /\
      BruteResult.finalCapital r = bestCapital g /\
      forall r', r' ∈ l1 ->
        is_nan (BruteResult.finalCapital r') = true \/
        (BruteResult.finalCapital r' <? bestCapital g)%float = true.
Proof.
  destruct (grid_search_total cast_oor MAXN prices startIdx endIdx)
    as (g & Hrun & Hper & Hok); [unfold MAXN; lia|].
  exists g. split; [assumption|].
  destruct (grid_search_best_tracked _ _ _ _ _ _ Hrun) as (Hnan & Hmax & Hfirst).
  assert (Hdiag : exists r, r ∈ results g /\
                            BruteResult.finalCapital r = 10000%float).
  { assert (Hin : (1, 1) ∈ periods <$> results g).
    { rewrite Hper. apply elem_of_grid_cells. unfold MAXN. lia. }
    apply list_elem_of_fmap in Hin as (r & Hr & Hin). exists r.
    split; [assumption|]. rewrite Forall_forall in Hok.
    apply (cell_result_cannot_trade cast_oor prices startIdx endIdx r);
      [now apply Hok | left].
    unfold periods in Hr. now injection Hr as <- <-. }
  destruct Hdiag as (r0 & Hr0 & Hfc0).
  split; [assumption | split; [|split; [assumption|]]].
  - rewrite <- Hfc0. now apply Hmax.
  - destruct Hfirst as [(_ & _ & Hbest) | Hfirst]; [|assumption].
    specialize (Hmax r0 Hr0). rewrite Hbest, Hfc0 in Hmax.
    vm_compute in Hmax. discriminate.
Qed.
(** ** The ranking: capitals in order, rank one and the best pair *)

Lemma ordered_by_capital (out : list BruteResult.t) (i j : nat)
      (x y : BruteResult.t) :
  ordered_by rank_before out ->
  (i < j)%nat -> out !! i = Some x -> out !! j = Some y ->
  (BruteResult.finalCapital x <? BruteResult.finalCapital y)%float = false.
Proof.
  intros Hord Hij Hx Hy.
  destruct (BruteResult.finalCapital x <? BruteResult.finalCapital y)%float eqn:E;
    [|reflexivity].
  assert (Hyx : rank_before y x = true) by (apply rank_before_keys; now left).
  rewrite (Hord i j x y Hij Hx Hy) in Hyx. discriminate.
Qed.

Lemma eqb_of_not_ltb (x y : float) :
  is_nan x = false -> is_nan y = false ->
  (x <? y)%float = false -> (y <? x)%float = false -> (x =? y)%float = true.
Proof.
  intros Hx Hy Hxy Hyx. apply (eqb_key _ _ Hx Hy).
  destruct (key_lt_total (sf_key (Prim2SF x)) (sf_key (Prim2SF y)))
    as [H | [H | H]]; [| assumption |].
  - apply (ltb_key _ _ Hx Hy) in H. congruence.
  - apply (ltb_key _ _ Hy Hx) in H. congruence.
Qed.

(** X10: the best capital the sweep reports on the console is the capital
    of rank one: when every capital is a number, the first entry of the
    sorted results has a final capital equal to [bestCapital].  (Its
    periods may differ from [(bestS, bestL)]: the sweep keeps the first
    pair seen, the ranking prefers the wider spread.) *)
Theorem rank_one_holds_best_capital
  (cast_oor : float -> Z) (prices : list float) (startIdx endIdx : Z) :
  exists g : sweep,
    bruteForceAndAppend cast_oor prices startIdx endIdx = Some g /\
    forall (out : list BruteResult.t) (top : BruteResult.t),
      Forall capital_defined (results g) ->
      sorts_to rank_before (results g) out ->
      out !! 0%nat = Some top ->
      (BruteResult.finalCapital top =? bestCapital g)%float = true.
Proof.
  destruct (grid_search_total cast_oor MAXN prices startIdx endIdx)
    as (g & Hrun & Hper & Hok); [unfold MAXN; lia|].
  exists g. split; [assumption|].
  intros out top Hdef [Hperm Hord] Htop.
  destruct (grid_search_best_tracked _ _ _ _ _ _ Hrun) as (Hnan & Hmax & Hfirst).
  assert (Hin : top ∈ results g).
  { rewrite Hperm. apply list_elem_of_lookup. now exists O. }
  assert (Htopdef : is_nan (BruteResult.finalCapital top) = false).
  { rewrite Forall_forall in Hdef. now apply Hdef. }
  apply eqb_of_not_ltb; [assumption | assumption | | now apply Hmax].
  destruct Hfirst as [(_ & _ & Hbest) | (l1 & r & l2 & Hres & _ & Hfc & _)].
  - (* the cell (1, 1) has beaten the initial -1e18 *)
    exfalso.
    assert (Hdiag : (1, 1) ∈ periods <$> results g).
    { rewrite Hper. apply elem_of_grid_cells. unfold MAXN. lia. }
    apply list_elem_of_fmap in Hdiag as (r0 & Hr0 & Hin0).
    rewrite Forall_forall in Hok.
    destruct (cell_result_cannot_trade cast_oor prices startIdx endIdx r0)
      as [Hfc0 _]; [now apply Hok | left |].
    { unfold periods in Hr0. now injection Hr0 as <- <-. }
    specialize (Hmax r0 Hin0). rewrite Hbest, Hfc0 in Hmax.
    vm_compute in Hmax. discriminate.
  - assert (Hr : r ∈ out).
    { rewrite <- Hperm, Hres. apply elem_of_app. right. apply list_elem_of_here. }
    apply list_elem_of_lookup in Hr as [k Hk]. rewrite <- Hfc.
    destruct k as [|k].
    + rewrite Htop in Hk. injection Hk as <-. apply ltb_irrefl.
    + apply (ordered_by_capital out 0 (S k)); [assumption | lia | assumption..].
Qed.
(** ** Strings: worked examples *)

Example trim_example :
  trim (String.list_ascii_of_string "  3/1/2024 ")
  = Some (String.list_ascii_of_string "3/1/2024") /\
  trim (String.list_ascii_of_string "   ") = Some [] /\
  trim [] = Some [].
Proof. repeat split; vm_compute; reflexivity. Qed.

Example splitByComma_example :
  splitByComma (String.list_ascii_of_string "Date, AAPL ,,MSFT,")
  = Some (String.list_ascii_of_string
            <$> ["Date"; "AAPL"; ""; "MSFT"]) /\
  splitByComma (String.list_ascii_of_string ",") = Some [[]] /\
  splitByComma [] = Some [].
Proof. repeat split; vm_compute; reflexivity. Qed.

(** ** [trim] *)

Lemma find_first_not_of_None (set s : list ascii) :
  find_first_not_of set s = None <-> Forall (fun c => c ∈ set) s.
Proof.
  induction s as [|c s IH]; simpl.
  - split; [constructor | reflexivity].
  - case_bool_decide as Hc.
    + destruct (find_first_not_of set s); simpl.
      * split; [discriminate|]. intros H. apply Forall_cons in H as [_ H].
        apply IH in H. discriminate.
      * split; [|reflexivity]. intros _. constructor; [assumption|].
        now apply IH.
    + split; [discriminate|]. intros H. apply Forall_cons in H as [H _].
      contradiction.
Qed.

Lemma find_first_not_of_Some (set s : list ascii) (k : nat) :
  find_first_not_of set s = Some k ->
  exists c rest,
    s = take k s ++ c :: rest /\ length (take k s) = k /\
    Forall (fun c => c ∈ set) (take k s) /\ c ∉ set.
Proof.
  revert k. induction s as [|c s IH]; intros k; simpl; [discriminate|].
  case_bool_decide as Hc.
  - destruct (find_first_not_of set s) as [k'|]; simpl; [|discriminate].
    intros [= <-]. destruct (IH k' eq_refl) as (c' & rest & Hs & Hlen & Hpre & Hc').
    exists c', rest. simpl. split; [now rewrite <- Hs|].
    split; [now rewrite Hlen|]. split; [now constructor | assumption].
  - intros [= <-]. exists c, s. simpl. repeat split; [constructor | assumption].
Qed.

Lemma find_last_not_of_None (set s : list ascii) :
  find_last_not_of set s = None <-> Forall (fun c => c ∈ set) s.
Proof.
  induction s as [|c s IH]; simpl.
  - split; [constructor | reflexivity].
  - destruct (find_last_not_of set s); simpl.
    + split; [discriminate|]. intros H. apply Forall_cons in H as [_ H].
      apply IH in H. discriminate.
    + case_bool_decide as Hc.
      * split; [|reflexivity]. intros _. constructor; [assumption|].
        now apply IH.
      * split; [discriminate|]. intros H. apply Forall_cons in H as [H _].
        contradiction.
Qed.

Lemma find_last_not_of_Some (set s : list ascii) (k : nat) :
  find_last_not_of set s = Some k ->
  exists c post,
    s = take k s ++ c :: post /\ length (take k s) = k /\
    (c ∉ set) /\ Forall (fun c => c ∈ set) post.
Proof.
  revert k. induction s as [|c s IH]; intros k; simpl; [discriminate|].
  destruct (find_last_not_of set s) as [k'|] eqn:E.
  - intros [= <-]. destruct (IH k' eq_refl) as (c' & post & Hs & Hlen & Hc' & Hpost).
    exists c', post. simpl. split; [now rewrite <- Hs|].
    split; [now rewrite Hlen|]. split; assumption.
  - case_bool_decide as Hc; [discriminate|].
    intros [= <-]. exists c, s. simpl. repeat split; [assumption|].
    now apply find_last_not_of_None.
Qed.

(** The two positions [trim] computes: the first is not after the last. *)
Lemma trim_positions (s : list ascii) (start : nat) :
  find_first_not_of whitespace s = Some start ->
  exists end_, find_last_not_of whitespace s = Some end_ /\ (start <= end_)%nat.
Proof.
  intros Hfirst.
  destruct (find_first_not_of_Some _ _ _ Hfirst) as (c & rest & Hs & Hlen & Hpre & Hc).
  destruct (find_last_not_of whitespace s) as [end_|] eqn:Hlast.
  - exists end_. split; [reflexivity|].
    destruct (find_last_not_of_Some _ _ _ Hlast) as (c' & post & Hs' & Hlen' & Hc' & _).
    destruct (Nat.le_gt_cases start end_) as [|Hgt]; [assumption | exfalso].
    (* the character at [end_] would lie in the whitespace prefix *)
    apply Hc'. rewrite Forall_forall in Hpre. apply Hpre.
    apply list_elem_of_lookup. exists end_.
    rewrite lookup_take_lt by lia. rewrite Hs'.
    rewrite lookup_app_r by lia. now rewrite Hlen', Nat.sub_diag.
  - apply find_last_not_of_None in Hlast.
    rewrite Hs in Hlast. apply Forall_app in Hlast as [_ Hlast].
    apply Forall_cons in Hlast as [Hlast _]. contradiction.
Qed.

(** What [trim] returns: the string without the whitespace at its two
    ends. *)
Lemma trim_strips (s : list ascii) :
  exists pre t post,
    trim s = Some t /\ s = pre ++ t ++ post /\
    Forall (fun c => c ∈ whitespace) pre /\
    Forall (fun c => c ∈ whitespace) post /\
    (forall c, head t = Some c -> c ∉ whitespace) /\
    (forall c, last t = Some c -> c ∉ whitespace).
Proof.
  unfold trim. destruct (find_first_not_of whitespace s) as [start|] eqn:Hfirst.
  - destruct (trim_positions s start Hfirst) as (end_ & Hlast & Hle).
    rewrite Hlast.
    destruct (find_first_not_of_Some _ _ _ Hfirst) as (c & rest & Hs & Hlen & Hpre & Hc).
    destruct (find_last_not_of_Some _ _ _ Hlast) as (c' & post & Hs' & Hlen' & Hc' & Hpost).
    assert (Hsize : (end_ < length s)%nat).
    { rewrite Hs', length_app. simpl. lia. }
    unfold substr. destruct (Nat.ltb_spec (length s) start); [lia|].
    replace (Z.to_nat (Z.of_nat end_ - Z.of_nat start + 1))
      with (S end_ - start)%nat by lia.
    exists (take start s), (take (S end_ - start) (drop start s)), post.
    split; [reflexivity|].
    assert (Hmid : take (S end_ - start) (drop start s)
                   = drop start (take end_ s) ++ [c']).
    { rewrite Hs' at 1. rewrite drop_app_le by lia.
      rewrite take_app_ge by (rewrite length_drop; lia).
      rewrite length_drop, Hlen'.
      replace (S end_ - start - (end_ - start))%nat with 1%nat by lia.
      reflexivity. }
    split; [|split; [assumption | split; [assumption | split]]].
    + rewrite Hmid. rewrite <- app_assoc. simpl.
      rewrite app_assoc.
      replace (take start s) with (take start (take end_ s))
        by (rewrite take_take; f_equal; lia).
      rewrite take_drop. exact Hs'.
    + intros x Hx.
      assert (Hdrop : drop start s = c :: rest).
      { rewrite Hs at 1. now apply drop_app_length'. }
      rewrite Hdrop in Hx. destruct (S end_ - start)%nat eqn:E; [lia|].
      simpl in Hx. now injection Hx as <-.
    + intros x Hx. rewrite Hmid, last_snoc in Hx. now injection Hx as <-.
  - exists s, [], []. apply find_first_not_of_None in Hfirst.
    split; [reflexivity|]. rewrite app_nil_r.
    repeat split; try assumption; try constructor; discriminate.
Qed.

(** X11: [trim] never throws, and what it returns is the string without
    the whitespace at its two ends: the string is a run of whitespace,
    the result, and a run of whitespace, and the result neither starts
    nor ends with a whitespace character. *)
Theorem trim_removes_surrounding_whitespace (s : list ascii) :
  exists pre t post,
    trim s = Some t /\ s = pre ++ t ++ post /\
    Forall (fun c => c ∈ whitespace) pre /\
    Forall (fun c => c ∈ whitespace) post /\
    (forall c, head t = Some c -> c ∉ whitespace) /\
    (forall c, last t = Some c -> c ∉ whitespace).
Proof. apply trim_strips. Qed.

Lemma trim_fixed (t : list ascii) :
  (forall c, head t = Some c -> c ∉ whitespace) ->
  (forall c, last t = Some c -> c ∉ whitespace) ->
  trim t = Some t.
Proof.
  intros Hhead Hlast.
  destruct (trim_strips t) as (pre & t' & post & Hrun & Ht & Hpre & Hpost & _).
  rewrite Hrun. f_equal.
  destruct pre as [|c pre].
  - destruct post as [|c post _] using rev_ind; [now rewrite app_nil_r in Ht|].
    exfalso. apply Forall_app in Hpost as [_ Hpost].
    apply Forall_cons in Hpost as [Hc _].
    apply (Hlast c); [|assumption].
    rewrite Ht. simpl. now rewrite app_assoc, last_snoc.
  - exfalso. apply Forall_cons in Hpre as [Hc _].
    apply (Hhead c); [|assumption]. now rewrite Ht.
Qed.

(** X12: [trim] is idempotent: trimming a trimmed string changes
    nothing. *)
Theorem trim_idempotent (s t : list ascii) :
  trim s = Some t -> trim t = Some t.
Proof.
  intros Hrun.
  destruct (trim_strips s) as (pre & t' & post & Hrun' & _ & _ & _ & Hhead & Hlast).
  rewrite Hrun in Hrun'. injection Hrun' as <-.
  now apply trim_fixed.
Qed.

Lemma trim_idempotent_witness :
  let s := String.list_ascii_of_string "  3/1/2024 " in
  let t := String.list_ascii_of_string "3/1/2024" in
  trim s = Some t /\ trim t = Some t.
Proof.
  split; [vm_compute; reflexivity|].
  apply (trim_idempotent (String.list_ascii_of_string "  3/1/2024 ")
           (String.list_ascii_of_string "3/1/2024")).
  vm_compute. reflexivity.
Defined.

(** ** [splitByComma] *)

Lemma read_until_spec (delim : ascii) (ss token rest : list ascii) :
  read_until delim ss = (token, rest) ->
  (delim ∉ token) /\
  ((ss = token /\ rest = []) \/ ss = token ++ delim :: rest).
Proof.
  revert token rest. induction ss as [|c ss IH]; intros token rest; simpl.
  - intros [= <- <-]. split; [apply not_elem_of_nil | now left].
  - case_bool_decide as Hc.
    + intros [= <- <-]. split; [apply not_elem_of_nil | right]. now rewrite Hc.
    + destruct (read_until delim ss) as [tok r] eqn:E. intros [= <- <-].
      destruct (IH tok r eq_refl) as [Hnot Hcase]. split.
      * intros Hin. apply elem_of_cons in Hin as [Hin | Hin]; [congruence | auto].
      * destruct Hcase as [[-> ->] | ->]; [now left | now right].
Qed.

Lemma count_commas_app (s1 s2 : list ascii) :
  count_commas (s1 ++ s2) = (count_commas s1 + count_commas s2)%nat.
Proof. unfold count_commas. now rewrite filter_app, length_app. Qed.

Lemma count_commas_none (s : list ascii) : ","%char ∉ s -> count_commas s = 0%nat.
Proof.
  unfold count_commas. induction s as [|c s IH]; intros Hnot; [reflexivity|].
  rewrite not_elem_of_cons in Hnot. destruct Hnot as [Hc Hs].
  rewrite filter_cons_False by congruence. now apply IH.
Qed.

Lemma trim_clean (token t : list ascii) :
  ","%char ∉ token -> trim token = Some t -> clean_field t.
Proof.
  intros Hnot Hrun.
  destruct (trim_strips token) as (pre & t' & post & Hrun' & Ht & _ & _ & Hh & Hl).
  rewrite Hrun in Hrun'. injection Hrun' as <-.
  split; [|split; assumption].
  intros Hin. apply Hnot. rewrite Ht. rewrite !elem_of_app. auto.
Qed.

Lemma split_loop_spec (fuel : nat) :
  forall (ss : list ascii) (tokens : list (list ascii)),
    (length ss < fuel)%nat ->
    exists new,
      split_loop fuel ss tokens = Some (tokens ++ new) /\
      length new = (count_commas ss + open_field ss)%nat /\
      Forall clean_field new.
Proof.
  induction fuel as [|fuel IH]; intros ss tokens Hfuel; [lia|]. simpl.
  destruct ss as [|c ss].
  - exists []. rewrite app_nil_r. repeat split. constructor.
  - unfold getline. destruct (read_until ","%char (c :: ss)) as [token rest] eqn:E.
    destruct (read_until_spec _ _ _ _ E) as [Hnot Hcase].
    destruct (trim_strips token) as (pre & t & post & Hrun & _).
    rewrite Hrun. simpl.
    pose proof (trim_clean token t Hnot Hrun) as Hclean.
    destruct (IH rest (tokens ++ [t])) as (new & Hnew & Hlen & Hall).
    { destruct Hcase as [[_ ->] | Hss]; [simpl in *; lia|].
      rewrite Hss, length_app in Hfuel. simpl in Hfuel. lia. }
    exists (t :: new). split; [now rewrite Hnew, <- app_assoc|].
    split; [|now constructor]. simpl. rewrite Hlen.
    destruct Hcase as [[Hss ->] | Hss].
    + (* the last field, up to the end of the line *)
      rewrite Hss, (count_commas_none token Hnot). unfold open_field.
      destruct (last token) as [x|] eqn:Hlast.
      * case_bool_decide as Hx; [|reflexivity]. exfalso. apply Hnot.
        rewrite <- Hx. apply last_Some_elem_of. assumption.
      * apply last_None in Hlast. rewrite <- Hss in Hlast. discriminate.
    + rewrite Hss, count_commas_app, (count_commas_none token Hnot). simpl.
      change (count_commas (","%char :: rest)) with (S (count_commas rest)).
      f_equal. f_equal. unfold open_field.
      destruct rest as [|r rest _] using rev_ind.
      * rewrite last_snoc. reflexivity.
      * rewrite app_comm_cons, app_assoc, !last_snoc. reflexivity.
Qed.

Lemma splitByComma_spec (line : list ascii) :
  exists tokens,
    splitByComma line = Some tokens /\
    length tokens = (count_commas line + open_field line)%nat /\
    Forall clean_field tokens.
Proof.
  unfold splitByComma.
  destruct (split_loop_spec (S (length line)) line []) as (new & Hrun & Hrest);
    [lia|].
  exists new. split; assumption.
Qed.

(** X13: [splitByComma] never fails.  A line with [k] commas yields
    [k + 1] fields, less the last one when it is empty (an empty line, or
    a line that ends with a comma, yields [k]); every field comes
    without a comma and without whitespace at its ends. *)
Theorem splitByComma_fields (line : list ascii) :
  exists tokens,
    splitByComma line = Some tokens /\
    length tokens = (count_commas line + open_field line)%nat /\
    (forall t, t ∈ tokens ->
       (","%char ∉ t) /\
       (forall c, head t = Some c -> c ∉ whitespace) /\
       (forall c, last t = Some c -> c ∉ whitespace)).
Proof.
  destruct (splitByComma_spec line) as (tokens & Hrun & Hlen & Hall).
  exists tokens. split; [assumption | split; [assumption|]].
  intros t Ht. rewrite Forall_forall in Hall. now apply Hall.
Qed.
(** ** [loadFile] *)

Section LoaderFacts.
Variable stod : list ascii -> option float.

Lemma convert_fields_spec (k : nat) :
  forall (i : Z) (tokens : list (list ascii)) (prices : list float),
    0 <= i -> i + Z.of_nat k <= Z.of_nat (length tokens) ->
    exists ok prices',
      convert_fields stod k i tokens prices = Some (ok, prices') /\
      (ok = true -> length prices' = (length prices + k)%nat).
Proof.
  induction k as [|k IH]; intros i tokens prices Hi Hle; simpl.
  - exists true, prices. split; [reflexivity | intros _; lia].
  - destruct (vget_in_range tokens i) as [token ->]; [lia|]. simpl.
    destruct (stod token) as [v|].
    + destruct (IH (i + 1) tokens (prices ++ [v])) as (ok & prices' & Hrun & Hlen);
        [lia | lia |].
      exists ok, prices'. split; [assumption|]. intros Hok.
      rewrite (Hlen Hok), length_app. simpl. lia.
    + exists false, prices. split; [reflexivity | discriminate].
Qed.

Lemma load_row_spec (width : nat) (line : list ascii) (data : list DayData.t) :
  (1 <= width)%nat ->
  Forall (fun d => length (DayData.prices d) = (width - 1)%nat) data ->
  exists data',
    load_row stod width line data = Some data' /\
    Forall (fun d => length (DayData.prices d) = (width - 1)%nat) data'.
Proof.
  intros Hwidth Hall. unfold load_row.
  destruct (find_first_not_of whitespace line); [|eauto].
  destruct (splitByComma_spec line) as (tokens & -> & _). simpl.
  destruct (Nat.eqb_spec (length tokens) width) as [Hw | Hw]; simpl; [|eauto].
  destruct (vget_in_range tokens 0) as [date ->]; [lia|]. simpl.
  destruct (convert_fields_spec (length tokens - 1) 1 tokens [])
    as (ok & prices & -> & Hlen); [lia | lia |]. simpl.
  destruct ok; simpl; [|eauto].
  eexists. split; [reflexivity|]. apply Forall_app. split; [assumption|].
  constructor; [|constructor]. simpl. rewrite Hlen by reflexivity. simpl. lia.
Qed.

Lemma read_until_shorter (delim : ascii) (ss token rest : list ascii) :
  read_until delim ss = (token, rest) -> (length rest <= length ss - 1)%nat.
Proof.
  intros E. destruct (read_until_spec _ _ _ _ E) as [_ [[_ ->] | ->]].
  - simpl. lia.
  - rewrite length_app. simpl. lia.
Qed.

Lemma load_rows_spec (width fuel : nat) :
  forall (fin : list ascii) (data : list DayData.t),
    (1 <= width)%nat -> (length fin < fuel)%nat ->
    Forall (fun d => length (DayData.prices d) = (width - 1)%nat) data ->
    exists data',
      load_rows stod fuel fin width data = Some data' /\
      Forall (fun d => length (DayData.prices d) = (width - 1)%nat) data'.
Proof.
  induction fuel as [|fuel IH]; intros fin data Hwidth Hfuel Hall; [lia|]. simpl.
  destruct fin as [|c fin]; [eauto|]. unfold getline.
  destruct (read_until "010"%char (c :: fin)) as [line rest] eqn:E.
  apply read_until_shorter in E. simpl in E, Hfuel.
  destruct (load_row_spec width line data Hwidth Hall) as (data1 & -> & Hall1).
  simpl. apply IH; [assumption | lia | assumption].
Qed.

Lemma header_symbols (headerTokens : list (list ascii)) :
  (1 <= length headerTokens)%nat ->
  for_loop (fun i symbols => t ← vget headerTokens i; Some (symbols ++ [t]))
           1 (Z.of_nat (length headerTokens)) []
  = Some (drop 1 headerTokens).
Proof.
  intros Hlen.
  destruct (for_loop_total
    (fun i symbols => t ← vget headerTokens i; Some (symbols ++ [t]))
    (fun i symbols => symbols = take (Z.to_nat (i - 1)) (drop 1 headerTokens))
    1 (Z.of_nat (length headerTokens)) []) as (symbols & -> & ->);
    [lia | reflexivity | |].
  - intros i symbols Hi ->.
    destruct (vget_in_range headerTokens i) as [t Ht]; [lia|].
    rewrite Ht. simpl. eexists. split; [reflexivity|].
    apply vget_Some in Ht as [_ Ht].
    replace (Z.to_nat (i + 1 - 1)) with (S (Z.to_nat (i - 1))) by lia.
    rewrite (take_S_r _ _ t); [reflexivity|].
    rewrite lookup_drop. now replace (1 + Z.to_nat (i - 1))%nat with (Z.to_nat i) by lia.
  - f_equal. apply take_ge. rewrite length_drop. lia.
Qed.

Lemma loadFile_spec (content : list ascii) :
  exists ok G,
    loadFile stod content = Some (ok, G) /\
    (ok = false <->
     content = [] \/
     (count_commas (first_line content) + open_field (first_line content) < 2)%nat) /\
    (ok = false -> G = cleared) /\
    (ok = true ->
     g_symbols G <> [] /\ Forall clean_field (g_symbols G) /\ rectangular G).
Proof.
  unfold loadFile, first_line. destruct content as [|c content].
  - exists false, cleared. repeat split; auto; discriminate.
  - unfold getline.
    destruct (read_until "010"%char (c :: content)) as [line fin] eqn:E.
    destruct (splitByComma_spec line) as (tokens & -> & Hlen & Hclean).
    cbn -[load_rows for_loop count_commas open_field Nat.ltb]. rewrite <- Hlen.
    destruct (Nat.ltb_spec (length tokens) 2) as [Hshort | Hwide].
    + exists false, cleared. split; [reflexivity|].
      split; [split; [intros _; now right | reflexivity]|].
      split; [reflexivity | discriminate].
    + rewrite header_symbols by lia.
      destruct (load_rows_spec (length tokens) (S (length fin)) fin [])
        as (data & Hdata & Hall); [lia | lia | constructor|].
      cbn -[load_rows]. rewrite Hdata. cbn.
      eexists true, _. split; [reflexivity|]. split; [|split; [discriminate|]].
      * split; [discriminate|]. intros [? | ?]; [discriminate | lia].
      * intros _. cbn. split; [|split].
        -- destruct tokens as [|t0 [|t1 tokens]]; simpl in *; [lia | lia | discriminate].
        -- destruct tokens as [|t0 tokens]; simpl; [constructor|].
           now apply Forall_cons in Hclean as [_ Hclean].
        -- intros d Hd. simpl in *. rewrite Forall_forall in Hall.
           rewrite (Hall d Hd), length_drop. reflexivity.
Qed.
End LoaderFacts.

(** A file with a padded header, a blank line, a short row, a row with
    a field that is no number and a row with a trailing comma: read by
    any [stod] that converts the five tokens as [std::stod] does. *)
Example loadFile_example (stod : list ascii -> option float) :
  let tok := String.list_ascii_of_string in
  stod (tok "185") = Some 185%float -> stod (tok "370") = Some 370%float ->
  stod (tok "x") = None ->
  stod (tok "181") = Some 181%float -> stod (tok "367") = Some 367%float ->
  let nl := ["010"%char] in
  let content :=
    tok "Date, AAPL ,MSFT" ++ nl ++
    tok "1/2/2024,185,370" ++ nl ++
    nl ++
    tok "1/3/2024,184" ++ nl ++
    tok "1/4/2024,x,367" ++ nl ++
    tok " 1/5/2024 , 181 ,367 ," in
  loadFile stod content
  = Some (true,
          {| g_symbols := tok <$> ["AAPL"; "MSFT"];
             g_data :=
               [ {| DayData.date := tok "1/2/2024";
                    DayData.prices := [185; 370]%float |};
                 {| DayData.date := tok "1/5/2024";
                    DayData.prices := [181; 367]%float |} ] |}).
Proof.
  intros tok H185 H370 Hx H181 H367 nl content.
  vm_compute in H185, H370, Hx, H181, H367.
  vm_compute. rewrite H185. vm_compute. rewrite H370. vm_compute.
  rewrite Hx. vm_compute. rewrite H181. vm_compute. rewrite H367.
  vm_compute. reflexivity.
Qed.

(** X14: [loadFile] reads every file to its end without an access out of
    bounds or an escaping exception, whatever [stod] accepts.  When it
    returns [false] both tables are empty; when it returns [true] there
    is at least one symbol, the symbols are trimmed fields, and every
    day loaded has exactly one price per symbol. *)
Theorem loadFile_tables_are_rectangular
  (stod : list ascii -> option float) (content : list ascii) :
  exists (ok : bool) (G : globals),
    loadFile stod content = Some (ok, G) /\
    (ok = false -> g_symbols G = [] /\ g_data G = []) /\
    (ok = true ->
     g_symbols G <> [] /\
     (forall t, t ∈ g_symbols G ->
        (","%char ∉ t) /\
        (forall c, head t = Some c -> c ∉ whitespace) /\
        (forall c, last t = Some c -> c ∉ whitespace)) /\
     (forall d, d ∈ g_data G ->
        length (DayData.prices d) = length (g_symbols G))).
Proof.
  destruct (loadFile_spec stod content) as (ok & G & Hrun & _ & Hfalse & Htrue).
  exists ok, G. split; [assumption | split].
  - intros Hok. rewrite (Hfalse Hok). split; reflexivity.
  - intros Hok. destruct (Htrue Hok) as (Hne & Hclean & Hrect).
    split; [assumption | split; [|exact Hrect]].
    intros t Ht. rewrite Forall_forall in Hclean. now apply Hclean.
Qed.

(** X15: [loadFile] on an opened file returns [false] in two cases only:
    the file is empty, or its first line has fewer than two fields.
    Lines after the header never make it fail. *)
Theorem loadFile_fails_on_header_only
  (stod : list ascii -> option float) (content : list ascii) :
  exists (ok : bool) (G : globals),
    loadFile stod content = Some (ok, G) /\
    (ok = false <->
     content = [] \/
     (count_commas (first_line content) + open_field (first_line content) < 2)%nat).
Proof.
  destruct (loadFile_spec stod content) as (ok & G & Hrun & Hiff & _).
  exists ok, G. split; assumption.
Qed.
(** ** [findSymbolIndex] *)

Lemma find_symbol_from_spec (symbols : list (list ascii)) (symbol : list ascii)
      (k : nat) :
  forall i : Z,
    0 <= i -> i + Z.of_nat k = Z.of_nat (length symbols) ->
    (forall j : nat, Z.of_nat j < i -> symbols !! j <> Some symbol) ->
    exists r,
      find_symbol_from symbols symbol k i = Some r /\
      ((r = -1 /\ symbol ∉ symbols) \/
       (0 <= r < Z.of_nat (length symbols) /\
        symbols !! Z.to_nat r = Some symbol /\
        forall j : nat, Z.of_nat j < r -> symbols !! j <> Some symbol)).
Proof.
  induction k as [|k IH]; intros i Hi Hlen Hbefore; simpl.
  - exists (-1). split; [reflexivity | left]. split; [reflexivity|].
    intros Hin. apply list_elem_of_lookup in Hin as [j Hj].
    apply (Hbefore j); [|assumption]. apply lookup_lt_Some in Hj. lia.
  - destruct (vget_in_range symbols i) as [x Hx]; [lia|]. rewrite Hx. simpl.
    apply vget_Some in Hx as [_ Hx]. case_bool_decide as Heq.
    + exists i. split; [reflexivity | right]. subst x.
      split; [lia | split; assumption].
    + apply IH; [lia | lia |].
      intros j Hj. destruct (decide (Z.of_nat j = i)) as [<- | Hne].
      * rewrite Nat2Z.id in Hx. congruence.
      * apply Hbefore. lia.
Qed.

Lemma findSymbolIndex_spec (symbols : list (list ascii)) (symbol : list ascii) :
  exists r,
    findSymbolIndex symbols symbol = Some r /\
    ((r = -1 /\ symbol ∉ symbols) \/
     (0 <= r < Z.of_nat (length symbols) /\
      symbols !! Z.to_nat r = Some symbol /\
      forall j : nat, Z.of_nat j < r -> symbols !! j <> Some symbol)).
Proof.
  apply find_symbol_from_spec; [lia | lia | intros j Hj; lia].
Qed.

(** X16: [findSymbolIndex] returns [-1] exactly for the symbols that are
    not in the table. *)
Theorem findSymbolIndex_minus_one_iff_absent
  (symbols : list (list ascii)) (symbol : list ascii) :
  exists r,
    findSymbolIndex symbols symbol = Some r /\
    (r = -1 <-> symbol ∉ symbols).
Proof.
  destruct (findSymbolIndex_spec symbols symbol)
    as (r & Hrun & [[-> Habs] | (Hr & Hat & _)]).
  - exists (-1). split; [assumption|]. split; auto.
  - exists r. split; [assumption|]. split; [lia|].
    intros Habs. exfalso. apply Habs. apply list_elem_of_lookup. eauto.
Qed.

(** X17: for a symbol of the table, [findSymbolIndex] returns the index
    of its first occurrence: an index within the table, at which the
    symbol stands, and before which it does not. *)
Theorem findSymbolIndex_first_occurrence
  (symbols : list (list ascii)) (symbol : list ascii) :
  symbol ∈ symbols ->
  exists r,
    findSymbolIndex symbols symbol = Some r /\
    0 <= r < Z.of_nat (length symbols) /\
    symbols !! Z.to_nat r = Some symbol /\
    forall j : nat, Z.of_nat j < r -> symbols !! j <> Some symbol.
Proof.
  intros Hin.
  destruct (findSymbolIndex_spec symbols symbol)
    as (r & Hrun & [[_ Habs] | Hfound]); [contradiction|].
  exists r. split; assumption.
Qed.

Lemma findSymbolIndex_first_occurrence_witness :
  let symbols := String.list_ascii_of_string <$> ["AAPL"; "KO"; "V"; "KO"] in
  let symbol := String.list_ascii_of_string "KO" in
  symbol ∈ symbols /\
  findSymbolIndex symbols symbol = Some 1 /\
  exists r,
    findSymbolIndex symbols symbol = Some r /\
    0 <= r < Z.of_nat (length symbols) /\
    symbols !! Z.to_nat r = Some symbol /\
    forall j : nat, Z.of_nat j < r -> symbols !! j <> Some symbol.
Proof.
  intros symbols symbol.
  assert (Hin : symbol ∈ symbols).
  { apply list_elem_of_lookup. exists 1%nat. reflexivity. }
  split; [exact Hin | split; [vm_compute; reflexivity|]].
  apply (findSymbolIndex_first_occurrence symbols symbol Hin).
Defined.

(** ** [runForSymbol] *)

Lemma str_contains_infix (pat s : list ascii) :
  str_contains pat s = true <-> exists pre post, s = pre ++ pat ++ post.
Proof.
  induction s as [|c s IH]; simpl.
  - case_bool_decide as Hp.
    + split; [|reflexivity]. intros _. destruct Hp as [post Hp].
      exists [], post. assumption.
    + split; [discriminate|]. intros (pre & post & Hs). exfalso. apply Hp.
      destruct pre; [|discriminate]. exists post. assumption.
  - case_bool_decide as Hp.
    + split; [|reflexivity]. intros _. destruct Hp as [post Hp].
      exists [], post. assumption.
    + rewrite IH. split.
      * intros (pre & post & ->). exists (c :: pre), post. reflexivity.
      * intros (pre & post & Hs). destruct pre as [|c' pre].
        -- exfalso. apply Hp. exists post. assumption.
        -- injection Hs as -> ->. eauto.
Qed.

Lemma collect_series_spec (symIdx : Z) (data : list DayData.t) :
  forall (prices : list float) (dates : list (list ascii)),
    (forall d, d ∈ data -> 0 <= symIdx < Z.of_nat (length (DayData.prices d))) ->
    exists ps,
      collect_series symIdx data prices dates
      = Some (prices ++ ps, dates ++ (DayData.date <$> data)) /\
      Forall2 (fun d p => vget (DayData.prices d) symIdx = Some p) data ps.
Proof.
  induction data as [|d data IH]; intros prices dates Hin; simpl.
  - exists []. rewrite !app_nil_r. split; [reflexivity | constructor].
  - destruct (vget_in_range (DayData.prices d) symIdx) as [p Hp].
    { apply Hin. apply list_elem_of_here. }
    rewrite Hp. simpl.
    destruct (IH (prices ++ [p]) (dates ++ [DayData.date d])) as (ps & -> & Hcol).
    { intros d' Hd'. apply Hin. now apply list_elem_of_further. }
    exists (p :: ps). rewrite <- !app_assoc. simpl.
    split; [reflexivity | now constructor].
Qed.

Lemma find_2024_spec (dates : list (list ascii)) :
  exists start2024 end2024,
    find_2024 dates = Some (start2024, end2024) /\
    ((start2024 = -1 /\ end2024 = -1 /\
      forall d, d ∈ dates -> str_contains year_tag d = false) \/
     (0 <= start2024 <= end2024 /\ end2024 < Z.of_nat (length dates) /\
      (exists d, dates !! Z.to_nat start2024 = Some d /\
                 str_contains year_tag d = true) /\
      (exists d, dates !! Z.to_nat end2024 = Some d /\
                 str_contains year_tag d = true) /\
      forall (j : nat) d,
        Z.of_nat j < start2024 \/ end2024 < Z.of_nat j ->
        dates !! j = Some d -> str_contains year_tag d = false)).
Proof.
  unfold find_2024.
  destruct (for_loop_total
    (fun i '(start2024, end2024) =>
       d ← vget dates i;
       if str_contains year_tag d
       then Some (if start2024 =? -1 then i else start2024, i)
       else Some (start2024, end2024))
    (fun i '(s, e) =>
       (s = -1 /\ e = -1 /\
        forall (j : nat) d, Z.of_nat j < i -> dates !! j = Some d ->
                            str_contains year_tag d = false) \/
       (0 <= s <= e /\ e < i /\
        (exists d, dates !! Z.to_nat s = Some d /\ str_contains year_tag d = true) /\
        (exists d, dates !! Z.to_nat e = Some d /\ str_contains year_tag d = true) /\
        forall (j : nat) d,
          Z.of_nat j < i -> Z.of_nat j < s \/ e < Z.of_nat j ->
          dates !! j = Some d -> str_contains year_tag d = false))
    0 (Z.of_nat (length dates)) (-1, -1)) as ([s e] & Hrun & Hinv); [lia | | |].
  - left. split; [reflexivity | split; [reflexivity|]]. intros j d Hj. lia.
  - intros i [s e] Hi Hinv.
    destruct (vget_in_range dates i) as [d Hd]; [lia|]. rewrite Hd. simpl.
    apply vget_Some in Hd as [_ Hd].
    destruct (str_contains year_tag d) eqn:Hc; eexists; (split; [reflexivity|]).
    + right. destruct Hinv as [(-> & -> & Hnone) | (Hse & Hei & Hs & He & Hout)].
      * simpl. split; [lia | split; [lia|]]. split; [eauto | split; [eauto|]].
        intros j d' Hj Hout. apply Hnone. lia.
      * destruct (Z.eqb_spec s (-1)); [lia|].
        split; [lia | split; [lia|]]. split; [assumption | split; [eauto|]].
        intros j d' Hj [Hlo | Hhi]; [|lia]. apply Hout; [lia | now left].
    + destruct Hinv as [(-> & -> & Hnone) | (Hse & Hei & Hs & He & Hout)].
      * left. split; [reflexivity | split; [reflexivity|]].
        intros j d' Hj Hd'. destruct (decide (Z.of_nat j = i)) as [<- | Hne].
        -- rewrite Nat2Z.id in Hd. congruence.
        -- apply (Hnone j); [lia | assumption].
      * right. split; [lia | split; [lia|]]. split; [assumption | split; [assumption|]].
        intros j d' Hj Hcase Hd'. destruct (decide (Z.of_nat j = i)) as [<- | Hne].
        -- rewrite Nat2Z.id in Hd. congruence.
        -- apply (Hout j); [lia | assumption | assumption].
  - exists s, e. split; [assumption|].
    destruct Hinv as [(-> & -> & Hnone) | (Hse & Hei & Hs & He & Hout)].
    + left. split; [reflexivity | split; [reflexivity|]].
      intros d Hd. apply list_elem_of_lookup in Hd as [j Hj].
      apply (Hnone j); [|assumption]. apply lookup_lt_Some in Hj. lia.
    + right. split; [lia | split; [lia|]]. split; [assumption | split; [assumption|]].
      intros j d Hcase Hd. apply (Hout j); [|assumption..].
      apply lookup_lt_Some in Hd. lia.
Qed.

(** X18: the range [runForSymbol] hands to the sweep.  Either no date
    contains ["/2024"] and both indices stay [-1], or [start2024] is the
    index of the first date that contains it and [end2024] of the last:
    [0 <= start2024 <= end2024 < size], and no date outside the range
    contains it.  Dates inside the range are not looked at. *)
Theorem find_2024_first_and_last (dates : list (list ascii)) :
  exists start2024 end2024,
    find_2024 dates = Some (start2024, end2024) /\
    ((start2024 = -1 /\ end2024 = -1 /\
      forall d, d ∈ dates -> str_contains year_tag d = false) \/
     (0 <= start2024 <= end2024 /\ end2024 < Z.of_nat (length dates) /\
      (exists d, dates !! Z.to_nat start2024 = Some d /\
                 str_contains year_tag d = true) /\
      (exists d, dates !! Z.to_nat end2024 = Some d /\
                 str_contains year_tag d = true) /\
      forall (j : nat) d,
        Z.of_nat j < start2024 \/ end2024 < Z.of_nat j ->
        dates !! j = Some d -> str_contains year_tag d = false)).
Proof. apply find_2024_spec. Qed.

(** Runs that end before the sweep. *)
Example runForSymbol_without_sweep :
  let G :=
    {| g_symbols := String.list_ascii_of_string <$> ["AAPL"; "MSFT"];
       g_data :=
         [ {| DayData.date := String.list_ascii_of_string "12/28/2023";
              DayData.prices := [193; 375]%float |};
           {| DayData.date := String.list_ascii_of_string "12/29/2023";
              DayData.prices := [192; 376]%float |} ] |} in
  runForSymbol cast_oor_x86 G (String.list_ascii_of_string "KO")
  = Some SymbolNotFound /\
  runForSymbol cast_oor_x86 G (String.list_ascii_of_string "MSFT")
  = Some No2024 /\
  runForSymbol cast_oor_x86 {| g_symbols := g_symbols G; g_data := [] |}
               (String.list_ascii_of_string "MSFT")
  = Some NoData.
Proof. repeat split; vm_compute; reflexivity. Qed.

Lemma runForSymbol_spec (cast_oor : float -> Z) (G : globals) (symbol : list ascii) :
  rectangular G ->
  exists outcome,
    runForSymbol cast_oor G symbol = Some outcome /\
    run_post cast_oor G symbol outcome.
Proof.
  intros Hrect. unfold runForSymbol, run_post. cbv beta zeta.
  destruct (findSymbolIndex_spec (g_symbols G) symbol)
    as (r & Hidx & [[-> Habs] | (Hr & Hat & _)]); rewrite Hidx;
    cbn -[bruteForceAndAppend year_tag str_contains].
  { exists SymbolNotFound. split; [reflexivity|].
    split; [split; auto|].
    split; [split; [discriminate | intros [? _]; contradiction]|].
    split; [split; [discriminate | intros [? _]; contradiction]|].
    split; [split; [intros (? & ? & ? & ? & ?); discriminate
                   | intros [? _]; contradiction]|].
    discriminate. }
  assert (Hin : symbol ∈ g_symbols G).
  { apply list_elem_of_lookup. eauto. }
  destruct (Z.eqb_spec r (-1)); [lia|].
  destruct (collect_series_spec r (g_data G) [] []) as (ps & -> & Hcol).
  { intros d Hd. rewrite (Hrect d Hd). lia. }
  pose proof (Forall2_length _ _ _ Hcol) as Hlen.
  cbn -[bruteForceAndAppend find_2024 year_tag str_contains].
  destruct ps as [|p ps].
  { assert (Hnil : g_data G = []).
    { destruct (g_data G); [reflexivity | discriminate]. }
    exists NoData. split; [reflexivity|].
    split; [split; [discriminate | contradiction]|].
    split; [split; [intros _; split; assumption | reflexivity]|].
    split; [split; [discriminate | intros (_ & Hne & _); contradiction]|].
    split; [|discriminate].
    split; [intros (? & ? & ? & ? & ?); discriminate|].
    intros (_ & d & Hd & _). rewrite Hnil in Hd. now apply elem_of_nil in Hd. }
  assert (Hne : g_data G <> []).
  { intros Hnil. rewrite Hnil in Hlen. discriminate. }
  destruct (find_2024_spec (DayData.date <$> g_data G))
    as (a & b & Hfind & [(-> & -> & Hnone) | (Hab & Hb & Hfirst & Hlast & Hout)]);
    rewrite Hfind; cbn -[bruteForceAndAppend year_tag str_contains].
  { assert (Hnone' : forall d, d ∈ g_data G ->
                                str_contains year_tag (DayData.date d) = false).
    { intros d Hd. apply Hnone. now apply list_elem_of_fmap_2. }
    exists No2024. split; [reflexivity|].
    split; [split; [discriminate | contradiction]|].
    split; [split; [discriminate | intros [_ ?]; contradiction]|].
    split; [split; [intros _; repeat split; assumption | reflexivity]|].
    split; [|discriminate].
    split; [intros (? & ? & ? & ? & ?); discriminate|].
    intros (_ & d & Hd & Htag). rewrite (Hnone' d Hd) in Htag. discriminate. }
  destruct (Z.eqb_spec a (-1)); [lia|].
  rewrite length_fmap in Hb.
  assert (Hday : forall k : Z,
            (exists date, (DayData.date <$> g_data G) !! Z.to_nat k = Some date /\
                          str_contains year_tag date = true) ->
            exists d, g_data G !! Z.to_nat k = Some d /\
                      str_contains year_tag (DayData.date d) = true).
  { intros k (date & Hk & Htag). rewrite list_lookup_fmap in Hk.
    destruct (g_data G !! Z.to_nat k) as [d|]; [|discriminate].
    injection Hk as <-. eauto. }
  destruct (Hday a Hfirst) as (da & Hda & Htag).
  destruct (grid_search_total cast_oor MAXN (p :: ps) a b)
    as (g & Hrun & Hper & _); [unfold MAXN; lia|].
  unfold bruteForceAndAppend. rewrite Hrun. cbn -[year_tag str_contains].
  exists (Swept (p :: ps) a b g). split; [reflexivity|].
  split; [split; [discriminate | contradiction]|].
  split; [split; [discriminate | intros [_ ?]; contradiction]|].
  split.
  { split; [discriminate|]. intros (_ & _ & Hnone). exfalso.
    rewrite (Hnone da) in Htag; [discriminate|].
    apply list_elem_of_lookup. eauto. }
  split.
  { split; [|eauto].
    intros _. split; [assumption|]. exists da.
    split; [apply list_elem_of_lookup; eauto | assumption]. }
  intros prices a' b' g' [= <- <- <- <-].
  split; [exists r; split; [reflexivity | split; assumption]|].
  split; [now rewrite <- Hlen|].
  split; [reflexivity|].
  split; [lia|]. split; [rewrite <- Hlen; lia|].
  split; [eauto|]. split; [now apply Hday|].
  split.
  { intros j d Hj Hd. apply (Hout j); [assumption|].
    rewrite list_lookup_fmap, Hd. reflexivity. }
  split; [assumption|].
  rewrite <- (length_fmap periods), Hper, length_grid_cells. reflexivity.
Qed.

(** The run after a load: the tables of a successful [loadFile] carry
    one price per symbol on every day, whatever [stod] does. *)
Corollary runForSymbol_after_loadFile
  (stod : list ascii -> option float) (cast_oor : float -> Z)
  (content : list ascii) (G : globals) (symbol : list ascii) :
  loadFile stod content = Some (true, G) ->
  exists outcome,
    runForSymbol cast_oor G symbol = Some outcome /\
    run_post cast_oor G symbol outcome.
Proof.
  intros Hload. apply runForSymbol_spec.
  destruct (loadFile_spec stod content) as (ok & G' & Hrun & _ & _ & Htrue).
  rewrite Hload in Hrun. injection Hrun as <- <-.
  now destruct (Htrue eq_refl) as (_ & _ & Hrect).
Qed.

Lemma runForSymbol_sweeps (cast_oor : float -> Z) (G : globals)
      (symbol : list ascii) (symIdx : Z) (prices : list float)
      (dates : list (list ascii)) (a b : Z) (g : sweep) :
  findSymbolIndex (g_symbols G) symbol = Some symIdx -> symIdx <> -1 ->
  collect_series symIdx (g_data G) [] [] = Some (prices, dates) -> prices <> [] ->
  find_2024 dates = Some (a, b) -> a <> -1 ->
  bruteForceAndAppend cast_oor prices a b = Some g ->
  runForSymbol cast_oor G symbol = Some (Swept prices a b g).
Proof.
  intros Hidx Hfound Hcol Hne Hfind Ha Hrun. unfold runForSymbol.
  rewrite Hidx. cbn -[bruteForceAndAppend find_2024 collect_series].
  destruct (Z.eqb_spec symIdx (-1)); [contradiction|].
  rewrite Hcol. cbn -[bruteForceAndAppend find_2024].
  destruct prices as [|p ps]; [contradiction|].
  rewrite Hfind. cbn -[bruteForceAndAppend].
  destruct (Z.eqb_spec a (-1)); [contradiction|].
  rewrite Hrun. reflexivity.
Qed.

(** A run that reaches the sweep: the column of MSFT, and the range
    from the first to the last date of 2024. *)
Example runForSymbol_with_sweep :
  let tok := String.list_ascii_of_string in
  let G :=
    {| g_symbols := tok <$> ["AAPL"; "MSFT"];
       g_data :=
         [ {| DayData.date := tok "12/29/2023"; DayData.prices := [192; 376]%float |};
           {| DayData.date := tok "1/2/2024"; DayData.prices := [185; 370]%float |};
           {| DayData.date := tok "1/3/2024"; DayData.prices := [184; 371]%float |} ] |} in
  exists g : sweep,
    runForSymbol cast_oor_x86 G (tok "MSFT") = Some (Swept [376; 370; 371]%float 1 2 g).
Proof.
  intros tok G.
  destruct (grid_search_total cast_oor_x86 MAXN [376; 370; 371]%float 1 2)
    as (g & Hrun & _); [unfold MAXN; lia|].
  exists g.
  apply (runForSymbol_sweeps cast_oor_x86 G (tok "MSFT") 1 [376; 370; 371]%float
           (DayData.date <$> g_data G) 1 2 g);
    [vm_compute; reflexivity | discriminate | vm_compute; reflexivity
    | discriminate | vm_compute; reflexivity | discriminate | exact Hrun].
Qed.

(** X19: a run for any symbol over tables that carry one price per
    symbol on every day, as a successful [loadFile] leaves them, stays
    within the bounds of every vector it reads and ends in one of four
    ways.  Not found, exactly when the symbol is not in the header; no
    data, exactly when the symbol is there and the table is empty; no
    2024, exactly when the table has days and no date contains
    ["/2024"]; a sweep, exactly when some date contains it.  The sweep
    receives the symbol's column, one price per day, and the range that
    [find_2024] returns, from the first to the last date containing
    ["/2024"], and collects its 65536 results. *)
Theorem runForSymbol_safe_after_load
  (cast_oor : float -> Z) (G : globals) (symbol : list ascii) :
  rectangular G ->
  exists outcome,
    runForSymbol cast_oor G symbol = Some outcome /\
    run_post cast_oor G symbol outcome.
Proof. apply runForSymbol_spec. Qed.

Lemma runForSymbol_safe_after_load_witness :
  let tok := String.list_ascii_of_string in
  let G :=
    {| g_symbols := tok <$> ["AAPL"; "MSFT"];
       g_data :=
         [ {| DayData.date := tok "12/29/2023"; DayData.prices := [192; 376]%float |};
           {| DayData.date := tok "1/2/2024"; DayData.prices := [185; 370]%float |};
           {| DayData.date := tok "1/3/2024"; DayData.prices := [184; 371]%float |} ] |} in
  rectangular G /\
  exists outcome,
    runForSymbol cast_oor_x86 G (tok "MSFT") = Some outcome /\
    run_post cast_oor_x86 G (tok "MSFT") outcome.
Proof.
  intros tok G.
  assert (Hrect : rectangular G).
  { intros d Hd. unfold G in Hd. cbn in Hd.
    repeat (apply elem_of_cons in Hd as [-> | Hd]; [reflexivity|]).
    now apply elem_of_nil in Hd. }
  split; [exact Hrect|].
  apply (runForSymbol_safe_after_load cast_oor_x86 G (tok "MSFT") Hrect).
Defined.
